(** * Plataforma de Compartilhamento: the points / availability ledger

    A shallow embedding of [main.py] with the in-memory storage backend
    ([USE_MONGO = False], the three module-level dictionaries), followed by
    the properties of the borrow / return state machine, of item creation
    and of user registration.

    Conventions of the embedding.
    - A handler is a computation in the monad [M]: it reads what the
      environment hands to this request (the value [uuid.uuid4()] returns
      and the clock reading), threads the three dictionaries, and either
      returns a value or raises. A raise keeps the store as it is at that
      point, as a Python exception does.
    - A route is its handler between what FastAPI does around it: the
      request body is built into the declared pydantic model first, and
      where the route declares a [response_model] the returned value is
      built into that model afterwards.
    - The stored documents are dictionaries with a fixed key set, written
      as records; a dictionary of documents is a [gmap] keyed by id,
      together with, for the two dictionaries the code iterates over, the
      list of its keys in the order they were first inserted (the order a
      Python [dict] iterates in).
      A stored document is never empty, so [if not doc] is the test for
      [None]; every document carries its ["points"] / ["available"] key, so
      the defaults of [.get(key, default)] are never taken.
    - Requests are served one after the other: a run is a list of
      requests, each with what the environment hands to it.
    - Python [int] is [Z]. A Python [str] is a [string] whose characters
      are read as code points below 256 (the [detail] texts of the
      exceptions are opaque and kept as the bytes of the source file). *)

From Stdlib Require Import ZArith Ascii String List Bool Lia.
From stdpp Require Import base tactics option list strings gmap.

Local Open Scope Z_scope.
Local Open Scope string_scope.

(** ** Constants *)

Definition POINTS_FOR_LENDING : Z := 10.
Definition POINTS_FOR_BORROW : Z := 5.

(** ** Request models (the pydantic classes) *)

Record UserCreate := MkUserCreate {
  uc_name : string;
  uc_email : string
}.

Record ItemCreate := MkItemCreate {
  ic_name : string;
  ic_description : option string;
  ic_owner_id : string
}.

Record LoanCreate := MkLoanCreate {
  lc_item_id : string;
  lc_borrower_id : string
}.

(** ** Stored documents and response dictionaries *)

Record UserDoc := MkUserDoc {
  u_name : string;
  u_email : string;
  u_points : Z;
  u_created_at : string;
  u_id : string
}.

Record ItemDoc := MkItemDoc {
  i_name : string;
  i_description : option string;
  i_owner_id : string;
  i_available : bool;
  i_created_at : string;
  i_id : string
}.

Record LoanDoc := MkLoanDoc {
  l_item_id : string;
  l_borrower_id : string;
  l_borrowed_at : string;
  l_id : string
}.

Record UserOut := MkUserOut {
  uo_id : string;
  uo_name : string;
  uo_email : string;
  uo_points : Z
}.

Record ItemOut := MkItemOut {
  io_id : string;
  io_name : string;
  io_description : option string;
  io_owner_id : string;
  io_available : bool
}.

(** [u["points"] = p] and [it["available"] = b] on a stored document. *)
Definition set_points (u : UserDoc) (p : Z) : UserDoc :=
  {| u_name := u_name u; u_email := u_email u; u_points := p;
     u_created_at := u_created_at u; u_id := u_id u |}.

Definition set_available (it : ItemDoc) (b : bool) : ItemDoc :=
  {| i_name := i_name it; i_description := i_description it;
     i_owner_id := i_owner_id it; i_available := b;
     i_created_at := i_created_at it; i_id := i_id it |}.

(** ** The store: [_mem_users], [_mem_items], [_mem_loans]

    [users_order] and [items_order] are the keys of [_mem_users] and
    [_mem_items] in insertion order; [_mem_loans] is never iterated. *)

Record Store := MkStore {
  _mem_users : gmap string UserDoc;
  _mem_items : gmap string ItemDoc;
  _mem_loans : gmap string LoanDoc;
  users_order : list string;
  items_order : list string
}.

Definition empty_store : Store := MkStore ∅ ∅ ∅ [] [].

(** [d[k] = v] on the order of the keys: a key already present keeps its
    place, a new key goes last. *)
Definition order_put {V} (m : gmap string V) (k : string) (order : list string)
    : list string :=
  match m !! k with
  | Some _ => order
  | None => (order ++ [k])%list
  end.

(** What the outside world hands to one request: the id that
    [uuid.uuid4()] yields and the reading of [datetime.utcnow()]. No handler
    draws more than one of each. *)
Record Env := MkEnv {
  env_uuid : string;
  env_now : string
}.

(** ** Exceptions and the handler monad *)

Inductive Exn :=
| HTTPException (status_code : Z) (detail : string)
| ValidationError (fields : list string)
| ResponseValidationError (fields : list string).

Definition M (A : Type) : Type := Env → Store → (Exn + A) * Store.

Definition ret {A} (a : A) : M A := λ _ s, (inr a, s).

Definition bind {A B} (m : M A) (k : A → M B) : M B :=
  λ e s, match m e s with
         | (inl x, s') => (inl x, s')
         | (inr a, s') => k a e s'
         end.

Definition raise {A} (x : Exn) : M A := λ _ s, (inl x, s).

Notation "x <- m ;; k" := (bind m (λ x, k))
  (at level 62, m at next level, right associativity).
Notation "m ;;; k" := (bind m (λ _, k))
  (at level 62, right associativity).

Definition _new_id : M string := λ e s, (inr (env_uuid e), s).
Definition utcnow_isoformat : M string := λ e s, (inr (env_now e), s).

(** Reads and writes of the three dictionaries. *)
Definition users_get (k : string) : M (option UserDoc) :=
  λ _ s, (inr (_mem_users s !! k), s).
Definition items_get (k : string) : M (option ItemDoc) :=
  λ _ s, (inr (_mem_items s !! k), s).

Definition users_put (k : string) (d : UserDoc) : M unit :=
  λ _ s, (inr tt,
          MkStore (<[k := d]> (_mem_users s)) (_mem_items s) (_mem_loans s)
            (order_put (_mem_users s) k (users_order s)) (items_order s)).
Definition items_put (k : string) (d : ItemDoc) : M unit :=
  λ _ s, (inr tt,
          MkStore (_mem_users s) (<[k := d]> (_mem_items s)) (_mem_loans s)
            (users_order s) (order_put (_mem_items s) k (items_order s))).
Definition loans_put (k : string) (d : LoanDoc) : M unit :=
  λ _ s, (inr tt,
          MkStore (_mem_users s) (_mem_items s) (<[k := d]> (_mem_loans s))
            (users_order s) (items_order s)).

(** [d.items()]: the entries in insertion order. *)
Definition dict_items {V} (m : gmap string V) (order : list string)
    : list (string * V) :=
  omap (λ k, (λ v, (k, v)) <$> m !! k) order.

(** ** Storage functions *)

Definition create_user_store (user : UserCreate) : M UserOut :=
  now <- utcnow_isoformat ;;
  id <- _new_id ;;
  let doc := {| u_name := uc_name user; u_email := uc_email user; u_points := 0;
                u_created_at := now; u_id := id |} in
  users_put id doc ;;;
  ret {| uo_id := u_id doc; uo_name := u_name doc; uo_email := u_email doc;
         uo_points := u_points doc |}.

Definition user_out (k : string) (v : UserDoc) : UserOut :=
  {| uo_id := k; uo_name := u_name v; uo_email := u_email v; uo_points := u_points v |}.

Definition list_users_store : M (list UserOut) :=
  λ _ s, (inr ((λ kv, user_out kv.1 kv.2)
                 <$> dict_items (_mem_users s) (users_order s)), s).

Definition get_user_store (user_id : string) : M (option UserDoc) :=
  users_get user_id.

Definition update_user_points (user_id : string) (delta : Z) : M bool :=
  u <- users_get user_id ;;
  match u with
  | None => ret false
  | Some u =>
      users_put user_id (set_points u (u_points u + delta)) ;;;
      ret true
  end.

Definition create_item_store (item : ItemCreate) : M ItemOut :=
  now <- utcnow_isoformat ;;
  id <- _new_id ;;
  let doc := {| i_name := ic_name item; i_description := ic_description item;
                i_owner_id := ic_owner_id item; i_available := true;
                i_created_at := now; i_id := id |} in
  items_put id doc ;;;
  ret {| io_id := i_id doc; io_name := i_name doc; io_description := i_description doc;
         io_owner_id := i_owner_id doc; io_available := i_available doc |}.

Definition item_out (k : string) (v : ItemDoc) : ItemOut :=
  {| io_id := k; io_name := i_name v; io_description := i_description v;
     io_owner_id := i_owner_id v; io_available := i_available v |}.

Definition list_items_store : M (list ItemOut) :=
  λ _ s, (inr ((λ kv, item_out kv.1 kv.2)
                 <$> dict_items (_mem_items s) (items_order s)), s).

Definition get_item_store (item_id : string) : M (option ItemDoc) :=
  items_get item_id.

Definition set_item_availability (item_id : string) (available : bool) : M bool :=
  it <- items_get item_id ;;
  match it with
  | None => ret false
  | Some it =>
      items_put item_id (set_available it available) ;;;
      ret true
  end.

Definition create_loan_store (loan : LoanCreate) : M LoanDoc :=
  now <- utcnow_isoformat ;;
  id <- _new_id ;;
  let doc := {| l_item_id := lc_item_id loan; l_borrower_id := lc_borrower_id loan;
                l_borrowed_at := now; l_id := id |} in
  loans_put id doc ;;;
  ret doc.

(** ** Route handlers *)

Definition create_user (user : UserCreate) : M UserOut :=
  u <- create_user_store user ;;
  ret u.

Definition list_users : M (list UserOut) := list_users_store.

Definition create_item (item : ItemCreate) : M ItemOut :=
  owner <- get_user_store (ic_owner_id item) ;;
  match owner with
  | None => raise (HTTPException 404 "owner_id não encontrado")
  | Some _ =>
      i <- create_item_store item ;;
      update_user_points (ic_owner_id item) POINTS_FOR_LENDING ;;;
      ret i
  end.

Definition list_items : M (list ItemOut) := list_items_store.

Definition borrow_item (loan : LoanCreate) : M string :=
  item <- get_item_store (lc_item_id loan) ;;
  match item with
  | None => raise (HTTPException 404 "Item não encontrado")
  | Some item =>
      if negb (i_available item)
      then raise (HTTPException 409 "Item já está emprestado")
      else
        borrower <- get_user_store (lc_borrower_id loan) ;;
        match borrower with
        | None => raise (HTTPException 404 "Usuário (borrower_id) não encontrado")
        | Some borrower =>
            if (u_points borrower <? POINTS_FOR_BORROW)%Z
            then raise (HTTPException 403 "Pontos insuficientes para pegar emprestado")
            else
              ok <- set_item_availability (lc_item_id loan) false ;;
              if negb ok
              then raise (HTTPException 500 "Erro ao atualizar item")
              else
                update_user_points (lc_borrower_id loan) (- POINTS_FOR_BORROW) ;;;
                create_loan_store loan ;;;
                ret "item emprestado com sucesso"
        end
  end.

Definition return_item (item_id : string) : M string :=
  item <- get_item_store item_id ;;
  match item with
  | None => raise (HTTPException 404 "Item não encontrado")
  | Some _ =>
      ok <- set_item_availability item_id true ;;
      if negb ok
      then raise (HTTPException 500 "Erro ao atualizar item")
      else ret "item devolvido com sucesso"
  end.

Definition health : M (string * string) := ret ("ok", "memory").

(** ** Email validation: [UserCreate.simple_email]

    [re.match(pattern, v)] succeeds when some prefix of [v] belongs to the
    language of the pattern (the match is anchored at the start only). The
    patterns are the fragment the source uses: literal characters, the
    negated one-character class, concatenation and [+]; [Void], [Eps],
    [Alt] and [Star] are what the derivatives of those need. *)

Inductive regex :=
| Void
| Eps
| Chr (c : ascii)
| NotChr (c : ascii)
| Cat (r1 r2 : regex)
| Alt (r1 r2 : regex)
| Star (r : regex).

Definition Plus (r : regex) : regex := Cat r (Star r).

Fixpoint nullable (r : regex) : bool :=
  match r with
  | Void => false
  | Eps => true
  | Chr _ => false
  | NotChr _ => false
  | Cat r1 r2 => nullable r1 && nullable r2
  | Alt r1 r2 => nullable r1 || nullable r2
  | Star _ => true
  end.

Fixpoint deriv (a : ascii) (r : regex) : regex :=
  match r with
  | Void => Void
  | Eps => Void
  | Chr c => if Ascii.eqb a c then Eps else Void
  | NotChr c => if Ascii.eqb a c then Void else Eps
  | Cat r1 r2 =>
      if nullable r1
      then Alt (Cat (deriv a r1) r2) (deriv a r2)
      else Cat (deriv a r1) r2
  | Alt r1 r2 => Alt (deriv a r1) (deriv a r2)
  | Star r1 => Cat (deriv a r1) (Star r1)
  end.

(** [re.match]: is there a prefix of [s] in the language of [r]? *)
Fixpoint re_match (r : regex) (s : list ascii) : bool :=
  nullable r ||
  match s with
  | [] => false
  | a :: s' => re_match (deriv a r) s'
  end.

(** The pattern [[^@]+@[^@]+\.[^@]+]. *)
Definition EMAIL_RE : regex :=
  Cat (Plus (NotChr "@"))
   (Cat (Chr "@")
    (Cat (Plus (NotChr "@"))
     (Cat (Chr ".")
      (Plus (NotChr "@"))))).

(** [str.lower] and [str.strip] on code points below 256: the upper-case
    letters there are A-Z, U+00C0-U+00D6 and U+00D8-U+00DE, each 32 below
    its lower-case letter; the white space there is U+0009-U+000D,
    U+001C-U+0020, U+0085 and U+00A0. *)
Definition py_isupper (c : ascii) : bool :=
  let n := N_of_ascii c in
  ((65 <=? n) && (n <=? 90) || (192 <=? n) && (n <=? 214) || (216 <=? n) && (n <=? 222))%N.

Definition py_lower_char (c : ascii) : ascii :=
  if py_isupper c then ascii_of_N (N_of_ascii c + 32) else c.

Definition py_isspace (c : ascii) : bool :=
  let n := N_of_ascii c in
  ((9 <=? n) && (n <=? 13) || (28 <=? n) && (n <=? 32) || (n =? 133) || (n =? 160))%N.

Fixpoint lstrip_chars (l : list ascii) : list ascii :=
  match l with
  | [] => []
  | c :: l' => if py_isspace c then lstrip_chars l' else l
  end.

Definition rstrip_chars (l : list ascii) : list ascii :=
  rev (lstrip_chars (rev l)).

Definition py_lower (v : string) : string :=
  string_of_list_ascii (map py_lower_char (list_ascii_of_string v)).

Definition py_strip (v : string) : string :=
  string_of_list_ascii (rstrip_chars (lstrip_chars (list_ascii_of_string v))).

(** The validator: [inl] is the [ValueError] it raises. *)
Definition simple_email (v : string) : string + string :=
  if negb (re_match EMAIL_RE (list_ascii_of_string v))
  then inl "email inválido"
  else inr (py_strip (py_lower v)).

(** Building a [UserCreate] from the request body: [name] has
    [min_length=1], [email] goes through [simple_email]; pydantic reports
    every failing field in one [ValidationError]. *)
Definition UserCreate_validate (name email : string) : Exn + UserCreate :=
  match (1 <=? String.length name)%nat, simple_email email with
  | true, inr e => inr (MkUserCreate name e)
  | true, inl _ => inl (ValidationError ["email"])
  | false, inr _ => inl (ValidationError ["name"])
  | false, inl _ => inl (ValidationError ["name"; "email"])
  end.

(** Building an [ItemCreate]: only [name] is constrained. *)
Definition ItemCreate_validate (name : string) (description : option string)
    (owner_id : string) : Exn + ItemCreate :=
  if (1 <=? String.length name)%nat
  then inr (MkItemCreate name description owner_id)
  else inl (ValidationError ["name"]).

(** ** Response models

    The routes on users and items declare a [response_model]. FastAPI
    builds the declared model from what the handler returned, which runs
    the validators of the model again, sends the model so built, and
    answers 500 when it cannot be built. [UserOut] inherits from
    [UserCreate] the [min_length=1] of [name] and the [simple_email]
    validator; [ItemOut] inherits from [ItemCreate] the [min_length=1] of
    [name]. [inl] lists the fields that failed. *)

Definition UserOut_validate (u : UserOut) : list string + UserOut :=
  match (1 <=? String.length (uo_name u))%nat, simple_email (uo_email u) with
  | true, inr e =>
      inr {| uo_id := uo_id u; uo_name := uo_name u; uo_email := e;
             uo_points := uo_points u |}
  | true, inl _ => inl ["email"]
  | false, inr _ => inl ["name"]
  | false, inl _ => inl ["name"; "email"]
  end.

Definition ItemOut_validate (i : ItemOut) : list string + ItemOut :=
  if (1 <=? String.length (io_name i))%nat then inr i else inl ["name"].

(** [List[Model]]: every element is built; the failures of all of them
    are reported together. *)
Fixpoint validate_each {A} (v : A → list string + A) (l : list A)
    : list string + list A :=
  match l with
  | [] => inr []
  | a :: l' =>
      match v a, validate_each v l' with
      | inr a', inr l'' => inr (a' :: l'')
      | inl fs, inr _ => inl fs
      | inr _, inl fs => inl fs
      | inl fs, inl fs' => inl (fs ++ fs')%list
      end
  end.

Definition response_model {A} (v : A → list string + A) (a : A) : M A :=
  match v a with
  | inl fields => raise (ResponseValidationError fields)
  | inr a' => ret a'
  end.

(** ** The application: requests, dispatch, runs *)

Inductive Request :=
| PostUsers (name email : string)
| GetUsers
| PostItems (name : string) (description : option string) (owner_id : string)
| GetItems
| PostLoans (item_id borrower_id : string)
| PostLoansReturn (item_id : string)
| GetHealth.

Inductive Response :=
| RUser (u : UserOut)
| RUsers (us : list UserOut)
| RItem (i : ItemOut)
| RItems (its : list ItemOut)
| RStatus (status : string)
| RHealth (status storage : string).

Definition app (r : Request) : M Response :=
  match r with
  | PostUsers name email =>
      match UserCreate_validate name email with
      | inl x => raise x
      | inr user =>
          u <- create_user user ;;
          u' <- response_model UserOut_validate u ;;
          ret (RUser u')
      end
  | GetUsers =>
      us <- list_users ;;
      us' <- response_model (validate_each UserOut_validate) us ;;
      ret (RUsers us')
  | PostItems name description owner_id =>
      match ItemCreate_validate name description owner_id with
      | inl x => raise x
      | inr item =>
          i <- create_item item ;;
          i' <- response_model ItemOut_validate i ;;
          ret (RItem i')
      end
  | GetItems =>
      its <- list_items ;;
      its' <- response_model (validate_each ItemOut_validate) its ;;
      ret (RItems its')
  | PostLoans item_id borrower_id =>
      st <- borrow_item (MkLoanCreate item_id borrower_id) ;; ret (RStatus st)
  | PostLoansReturn item_id =>
      st <- return_item item_id ;; ret (RStatus st)
  | GetHealth => h <- health ;; ret (RHealth h.1 h.2)
  end.

(** One request served, and a sequence of them from a given store. *)
Definition step (s : Store) (re : Request * Env) : Store :=
  (app re.1 re.2 s).2.

Definition run (tr : list (Request * Env)) (s : Store) : Store :=
  fold_left step tr s.

Definition reachable (s : Store) : Prop :=
  ∃ tr, s = run tr empty_store.

(** ** Outcomes *)

(** The handler raised an [HTTPException] with this status code. *)
Definition raises {A} (code : Z) (r : (Exn + A) * Store) : Prop :=
  ∃ detail, r.1 = inl (HTTPException code detail).

(** Pydantic refused the request body. *)
Definition raises_validation {A} (r : (Exn + A) * Store) : Prop :=
  ∃ fields, r.1 = inl (ValidationError fields).

Definition succeeds {A} (r : (Exn + A) * Store) : Prop :=
  ∃ a, r.1 = inr a.

(** The loan document a successful borrow stores. *)
Definition loan_doc (loan : LoanCreate) (e : Env) : LoanDoc :=
  {| l_item_id := lc_item_id loan; l_borrower_id := lc_borrower_id loan;
     l_borrowed_at := env_now e; l_id := env_uuid e |}.

(** The item document a successful creation stores. *)
Definition item_doc (item : ItemCreate) (e : Env) : ItemDoc :=
  {| i_name := ic_name item; i_description := ic_description item;
     i_owner_id := ic_owner_id item; i_available := true;
     i_created_at := env_now e; i_id := env_uuid e |}.

(** The user document a successful registration stores. *)
Definition user_doc (user : UserCreate) (e : Env) : UserDoc :=
  {| u_name := uc_name user; u_email := uc_email user; u_points := 0;
     u_created_at := env_now e; u_id := env_uuid e |}.


(** ** Sample runs

    The end-to-end scenario: Ana registers and lists a drill (Ana: 10
    points), Bia registers (0 points) and lists a ladder (Bia: 10 points);
    then Bia borrows the drill. *)

Definition ex_env (id : string) : Env := MkEnv id "2024-05-01T10:00:00".

Definition ex_setup : list (Request * Env) :=
  [ (PostUsers "Ana" "ana@example.org", ex_env "u-ana");
    (PostItems "drill" None "u-ana", ex_env "i-drill");
    (PostUsers "Bia" "bia@example.org", ex_env "u-bia");
    (PostItems "ladder" (Some "3 m") "u-bia", ex_env "i-ladder") ].

(** Both items available, both users at 10 points, no loan. *)
Definition ex_ready : Store := run ex_setup empty_store.

(** The drill is on loan to Bia (Bia: 5 points, one loan record). *)
Definition ex_lent : Store :=
  run [(PostLoans "i-drill" "u-bia", ex_env "l-1")] ex_ready.

(** Only Ana and her drill; Bia is registered with 0 points. *)
Definition ex_poor : Store :=
  run (take 3 ex_setup) empty_store.

(** A series of item creations, one after the other. *)
Definition create_items (reqs : list (ItemCreate * Env)) (s : Store) : Store :=
  fold_left (λ s ie, (create_item ie.1 ie.2 s).2) reqs s.

(** ** Reference notions for the email validator *)

(** The language of a pattern. *)
Inductive lang : regex → list ascii → Prop :=
| lang_eps : lang Eps []
| lang_chr c : lang (Chr c) [c]
| lang_notchr c a : a ≠ c → lang (NotChr c) [a]
| lang_cat r1 r2 s1 s2 :
    lang r1 s1 → lang r2 s2 → lang (Cat r1 r2) (s1 ++ s2)
| lang_alt_l r1 r2 s : lang r1 s → lang (Alt r1 r2) s
| lang_alt_r r1 r2 s : lang r2 s → lang (Alt r1 r2) s
| lang_star_nil r : lang (Star r) []
| lang_star_app r s1 s2 :
    lang r s1 → lang (Star r) s2 → lang (Star r) (s1 ++ s2).

(** No ["@"] among these characters. *)
Definition at_free (l : list ascii) : Prop :=
  Forall (λ c, c ≠ "@"%char) l.

(** The shape [text@text.text] as the spec writes it: three texts, none
    empty, joined by ["@"] and ["."]. *)
Definition email_shape (v : string) : Prop :=
  ∃ local domain tld : string,
    local ≠ "" ∧ domain ≠ "" ∧ tld ≠ "" ∧
    v = (local ++ "@" ++ domain ++ "." ++ tld)%string.

(** The text starts with [text@text.text], the three texts non-empty and
    free of ["@"]; anything may follow. *)
Definition starts_with_email (v : string) : Prop :=
  ∃ l d t rest,
    list_ascii_of_string v = (l ++ "@"%char :: d ++ "."%char :: t ++ rest)%list ∧
    l ≠ [] ∧ d ≠ [] ∧ t ≠ [] ∧ at_free l ∧ at_free d ∧ at_free t.

(** [t] is [w] without its leading and trailing white space. *)
Definition trimmed_of (w t : list ascii) : Prop :=
  ∃ pre post,
    w = (pre ++ t ++ post)%list ∧
    Forall (λ c, py_isspace c = true) pre ∧
    Forall (λ c, py_isspace c = true) post ∧
    (∀ c t', t = c :: t' → py_isspace c = false) ∧
    (∀ t' c, t = (t' ++ [c])%list → py_isspace c = false).

(** [stored] is [v] lower-cased, then trimmed. *)
Definition normalised_email (v stored : string) : Prop :=
  trimmed_of (map py_lower_char (list_ascii_of_string v))
    (list_ascii_of_string stored).

(** ** Reference notions for the history of a store *)

(** The ids [uuid4] hands out are new: an item is never created under the
    id of an item already stored, nor a loan under the id of a loan already
    stored. (A request that fails before drawing an id leaves the choice
    of its [env_uuid] free.) *)
Definition uuid_fresh (s : Store) (re : Request * Env) : bool :=
  match re.1 with
  | PostItems _ _ _ =>
      match _mem_items s !! env_uuid re.2 with None => true | Some _ => false end
  | PostLoans _ _ =>
      match _mem_loans s !! env_uuid re.2 with None => true | Some _ => false end
  | _ => true
  end.

Fixpoint uuids_fresh (tr : list (Request * Env)) (s : Store) : bool :=
  match tr with
  | [] => true
  | re :: tr' => uuid_fresh s re && uuids_fresh tr' (step s re)
  end.

(** The loan document [l] was created at the point [pre | post] of the
    run [tr]: the request between [pre] and [post] is a borrow that
    succeeded there and stored [l]. *)
Definition loan_created_at (tr pre post : list (Request * Env)) (l : LoanDoc) : Prop :=
  ∃ (loan : LoanCreate) (e : Env),
    tr = (pre ++ (PostLoans (lc_item_id loan) (lc_borrower_id loan), e) :: post)%list ∧
    succeeds (borrow_item loan e (run pre empty_store)) ∧
    l = loan_doc loan e.

(** Some request of this part of the run returns item [i]. *)
Definition returns_item (i : string) (post : list (Request * Env)) : Prop :=
  ∃ e, (PostLoansReturn i, e) ∈ post.

(** The loan [l] is matched in the run [tr]: a return of its item comes
    after its creation. *)
Definition loan_matched (tr : list (Request * Env)) (l : LoanDoc) : Prop :=
  ∃ pre post, loan_created_at tr pre post l ∧ returns_item (l_item_id l) post.

(** Every stored user holds at least 0 points. *)
Definition points_ok (s : Store) : Prop :=
  map_Forall (λ _ u, (0 ≤ u_points u)%Z) (_mem_users s).

(** Some stored loan for item [i] is not matched in the run [tr]. *)
Definition has_unmatched_loan (tr : list (Request * Env)) (i : string) : Prop :=
  ∃ (k : string) (l : LoanDoc),
    _mem_loans (run tr empty_store) !! k = Some l ∧
    l_item_id l = i ∧
    ¬ loan_matched tr l.

(** The sample run that ends with the drill on loan, and the same run
    followed by its return. *)
Definition ex_run_lent : list (Request * Env) :=
  (ex_setup ++ [(PostLoans "i-drill" "u-bia", ex_env "l-1")])%list.

Definition ex_run_returned : list (Request * Env) :=
  (ex_run_lent ++ [(PostLoansReturn "i-drill", ex_env "r-1")])%list.

(** A run in which [uuid4] repeats itself: the drill is lent, then a new
    item is created under the drill's id. *)
Definition ex_run_reused_id : list (Request * Env) :=
  (ex_run_lent ++ [(PostItems "drill II" None "u-ana", ex_env "i-drill")])%list.

(** ** Reference notions for the further properties *)

(** The request can make item [i] available: it is a return of [i], or an
    item creation that is handed [i] as its generated id. *)
Definition frees_item (i : string) (re : Request * Env) : bool :=
  match re.1 with
  | PostLoansReturn j => String.eqb j i
  | PostItems _ _ _ => String.eqb (env_uuid re.2) i
  | _ => false
  end.

(** Referential integrity of a store: every document carries its key as
    its id, every item's owner is a stored user, and every loan's item and
    borrower are stored. *)
Definition store_wf (s : Store) : Prop :=
  (∀ k u, _mem_users s !! k = Some u → u_id u = k) ∧
  (∀ k it, _mem_items s !! k = Some it →
     i_id it = k ∧ is_Some (_mem_users s !! i_owner_id it)) ∧
  (∀ k l, _mem_loans s !! k = Some l →
     l_id l = k ∧ is_Some (_mem_items s !! l_item_id l) ∧
     is_Some (_mem_users s !! l_borrower_id l)).

(** The points held by all stored users together. *)
Definition total_points (m : gmap string UserDoc) : Z :=
  map_fold (λ _ u acc, (u_points u + acc)%Z) 0%Z m.

(** The id handed to a creating request is new to the dictionary the
    request writes it to: users for a registration, items for an item
    creation, loans for a borrow. *)
Definition uuid_new (s : Store) (re : Request * Env) : bool :=
  match re.1 with
  | PostUsers _ _ =>
      match _mem_users s !! env_uuid re.2 with None => true | Some _ => false end
  | PostItems _ _ _ =>
      match _mem_items s !! env_uuid re.2 with None => true | Some _ => false end
  | PostLoans _ _ =>
      match _mem_loans s !! env_uuid re.2 with None => true | Some _ => false end
  | _ => true
  end.

Fixpoint uuids_new (tr : list (Request * Env)) (s : Store) : bool :=
  match tr with
  | [] => true
  | re :: tr' => uuid_new s re && uuids_new tr' (step s re)
  end.

(** Points in circulation, against what the items and the loans account
    for: 10 per stored item, less 5 per stored loan. *)
Definition ledger_balance (s : Store) : Z :=
  (total_points (_mem_users s)
   - 10 * Z.of_nat (size (_mem_items s))
   + 5 * Z.of_nat (size (_mem_loans s)))%Z.

(** The status code the client is answered with when the request ends in
    this exception: FastAPI answers 422 to a request body it cannot build
    and 500 to a response it cannot build. *)
Definition status_of (x : Exn) : Z :=
  match x with
  | HTTPException c _ => c
  | ValidationError _ => 422
  | ResponseValidationError _ => 500
  end.

(** The order lists are the keys of their dictionaries, each once. *)
Definition order_ok (s : Store) : Prop :=
  NoDup (users_order s) ∧
  (∀ k, k ∈ users_order s ↔ is_Some (_mem_users s !! k)) ∧
  NoDup (items_order s) ∧
  (∀ k, k ∈ items_order s ↔ is_Some (_mem_items s !! k)).
(** ** Equations of the handlers *)

Ltac unfold_store_ops :=
  unfold get_item_store, get_user_store, set_item_availability,
    update_user_points, create_loan_store, create_item_store,
    create_user_store, items_get, users_get, items_put, users_put,
    loans_put, _new_id, utcnow_isoformat, bind, ret, raise.

Lemma order_put_Some {V} (m : gmap string V) (k : string) (v : V) (o : list string) :
  m !! k = Some v → order_put m k o = o.
Proof. unfold order_put. by intros ->. Qed.

Lemma order_put_None {V} (m : gmap string V) (k : string) (o : list string) :
  m !! k = None → order_put m k o = (o ++ [k])%list.
Proof. unfold order_put. by intros ->. Qed.

Lemma borrow_item_eq (loan : LoanCreate) (e : Env) (s : Store) :
  borrow_item loan e s =
  match _mem_items s !! lc_item_id loan with
  | None => (inl (HTTPException 404 "Item não encontrado"), s)
  | Some it =>
      if i_available it then
        match _mem_users s !! lc_borrower_id loan with
        | None => (inl (HTTPException 404 "Usuário (borrower_id) não encontrado"), s)
        | Some b =>
            if (u_points b <? POINTS_FOR_BORROW)%Z
            then (inl (HTTPException 403 "Pontos insuficientes para pegar emprestado"), s)
            else (inr "item emprestado com sucesso",
                  MkStore
                    (<[lc_borrower_id loan := set_points b (u_points b - POINTS_FOR_BORROW)]>
                       (_mem_users s))
                    (<[lc_item_id loan := set_available it false]> (_mem_items s))
                    (<[env_uuid e := loan_doc loan e]> (_mem_loans s))
           (users_order s) (items_order s))
        end
      else (inl (HTTPException 409 "Item já está emprestado"), s)
  end.
Proof.
  unfold borrow_item. unfold_store_ops.
  destruct (_mem_items s !! lc_item_id loan) as [it|] eqn:Hit; [|done].
  destruct (i_available it); simpl; [|done].
  destruct (_mem_users s !! lc_borrower_id loan) as [b|] eqn:Hb; [|done].
  destruct (u_points b <? POINTS_FOR_BORROW)%Z; [done|].
  rewrite Hit. simpl. rewrite Hb. simpl.
  by rewrite Z.add_opp_r, (order_put_Some _ _ _ _ Hit), (order_put_Some _ _ _ _ Hb).
Qed.

Lemma return_item_eq (item_id : string) (e : Env) (s : Store) :
  return_item item_id e s =
  match _mem_items s !! item_id with
  | None => (inl (HTTPException 404 "Item não encontrado"), s)
  | Some it =>
      (inr "item devolvido com sucesso",
       MkStore (_mem_users s) (<[item_id := set_available it true]> (_mem_items s))
         (_mem_loans s)
           (users_order s) (items_order s))
  end.
Proof.
  unfold return_item. unfold_store_ops.
  destruct (_mem_items s !! item_id) as [it|] eqn:Hit; [|done].
  by rewrite Hit, (order_put_Some _ _ _ _ Hit).
Qed.

Lemma create_item_eq (item : ItemCreate) (e : Env) (s : Store) :
  create_item item e s =
  match _mem_users s !! ic_owner_id item with
  | None => (inl (HTTPException 404 "owner_id não encontrado"), s)
  | Some u =>
      (inr (item_out (env_uuid e) (item_doc item e)),
       MkStore
         (<[ic_owner_id item := set_points u (u_points u + POINTS_FOR_LENDING)]>
            (_mem_users s))
         (<[env_uuid e := item_doc item e]> (_mem_items s))
         (_mem_loans s)
           (users_order s) (order_put (_mem_items s) (env_uuid e) (items_order s)))
  end.
Proof.
  unfold create_item. unfold_store_ops.
  destruct (_mem_users s !! ic_owner_id item) as [u|] eqn:Hu; [|done].
  simpl. by rewrite Hu, (order_put_Some _ _ _ _ Hu).
Qed.

Lemma create_user_eq (user : UserCreate) (e : Env) (s : Store) :
  create_user user e s =
  (inr (user_out (env_uuid e) (user_doc user e)),
   MkStore (<[env_uuid e := user_doc user e]> (_mem_users s)) (_mem_items s)
     (_mem_loans s)
           (order_put (_mem_users s) (env_uuid e) (users_order s)) (items_order s)).
Proof. reflexivity. Qed.

Lemma store_eta (s : Store) :
  MkStore (_mem_users s) (_mem_items s) (_mem_loans s)
           (users_order s) (items_order s) = s.
Proof. by destruct s. Qed.

Lemma set_available_id (it : ItemDoc) :
  set_available it (i_available it) = it.
Proof. by destruct it. Qed.

Lemma raises_code_unique {A} (c1 c2 : Z) (r : (Exn + A) * Store) :
  raises c1 r → raises c2 r → c1 = c2.
Proof. intros [d1 H1] [d2 H2]. congruence. Qed.

Lemma raises_not_succeeds {A} (c : Z) (r : (Exn + A) * Store) :
  raises c r → ¬ succeeds r.
Proof. intros [d H1] [a H2]. congruence. Qed.

(** The two outcomes of a borrow: all four checks pass and the three
    writes are made, or the request fails and the store is untouched. *)
Lemma borrow_item_outcome (loan : LoanCreate) (e : Env) (s : Store) :
  (∃ it b,
     _mem_items s !! lc_item_id loan = Some it ∧ i_available it = true ∧
     _mem_users s !! lc_borrower_id loan = Some b ∧ (5 ≤ u_points b)%Z ∧
     borrow_item loan e s =
       (inr "item emprestado com sucesso",
        MkStore
          (<[lc_borrower_id loan := set_points b (u_points b - 5)]> (_mem_users s))
          (<[lc_item_id loan := set_available it false]> (_mem_items s))
          (<[env_uuid e := loan_doc loan e]> (_mem_loans s))
           (users_order s) (items_order s)))
  ∨ (¬ succeeds (borrow_item loan e s) ∧ (borrow_item loan e s).2 = s).
Proof.
  rewrite borrow_item_eq. unfold succeeds, POINTS_FOR_BORROW.
  destruct (_mem_items s !! lc_item_id loan) as [it|] eqn:Hit;
    [|right; split; [by intros [? ?] | done]].
  destruct (i_available it) eqn:Hav;
    [|right; split; [by intros [? ?] | done]].
  destruct (_mem_users s !! lc_borrower_id loan) as [b|] eqn:Hb;
    [|right; split; [by intros [? ?] | done]].
  destruct (Z.ltb_spec (u_points b) 5) as [Hlt|Hge];
    [right; split; [by intros [? ?] | done]|].
  left. exists it, b. done.
Qed.

(** ** Borrowing *)

(** C1. Borrowing succeeds exactly when the item exists and is available,
    the borrower exists and the borrower holds at least 5 points. On
    success the borrower's document has its points lowered by 5 and is
    otherwise the same, the item's document has [available] set to false
    and is otherwise the same, the loan dictionary receives the document of
    this loan under the generated id, and nothing else changes; with a
    generated id that is not yet a loan id (what [uuid4] is relied upon
    for), that is exactly one more loan record. The last part says the
    same field by field: the stored item is unavailable, the stored
    borrower holds 5 points less, the stored loan names this item and this
    borrower, and every other entry, and the order of the keys, is as
    before. *)
Theorem borrow_item_spec (s : Store) (loan : LoanCreate) (e : Env) :
  (succeeds (borrow_item loan e s) ↔
     ∃ it b,
       _mem_items s !! lc_item_id loan = Some it ∧ i_available it = true ∧
       _mem_users s !! lc_borrower_id loan = Some b ∧ (5 ≤ u_points b)%Z)
  ∧
  (succeeds (borrow_item loan e s) →
     ∃ it b,
       _mem_items s !! lc_item_id loan = Some it ∧
       _mem_users s !! lc_borrower_id loan = Some b ∧
       let s' := (borrow_item loan e s).2 in
       _mem_users s' =
         <[lc_borrower_id loan := set_points b (u_points b - 5)]> (_mem_users s) ∧
       _mem_items s' =
         <[lc_item_id loan := set_available it false]> (_mem_items s) ∧
       _mem_loans s' = <[env_uuid e := loan_doc loan e]> (_mem_loans s) ∧
       l_item_id (loan_doc loan e) = lc_item_id loan ∧
       l_borrower_id (loan_doc loan e) = lc_borrower_id loan ∧
       (_mem_loans s !! env_uuid e = None →
        size (_mem_loans s') = S (size (_mem_loans s))))
  ∧
  (succeeds (borrow_item loan e s) →
     let s' := (borrow_item loan e s).2 in
     (∃ it it',
        _mem_items s !! lc_item_id loan = Some it ∧
        _mem_items s' !! lc_item_id loan = Some it' ∧
        i_available it = true ∧ i_available it' = false ∧
        i_name it' = i_name it ∧ i_description it' = i_description it ∧
        i_owner_id it' = i_owner_id it ∧ i_created_at it' = i_created_at it ∧
        i_id it' = i_id it) ∧
     (∃ b b',
        _mem_users s !! lc_borrower_id loan = Some b ∧
        _mem_users s' !! lc_borrower_id loan = Some b' ∧
        u_points b' = (u_points b - 5)%Z ∧
        u_name b' = u_name b ∧ u_email b' = u_email b ∧
        u_created_at b' = u_created_at b ∧ u_id b' = u_id b) ∧
     _mem_loans s' !! env_uuid e
       = Some (MkLoanDoc (lc_item_id loan) (lc_borrower_id loan) (env_now e)
                 (env_uuid e)) ∧
     (∀ k, k ≠ lc_item_id loan → _mem_items s' !! k = _mem_items s !! k) ∧
     (∀ k, k ≠ lc_borrower_id loan → _mem_users s' !! k = _mem_users s !! k) ∧
     (∀ k, k ≠ env_uuid e → _mem_loans s' !! k = _mem_loans s !! k) ∧
     users_order s' = users_order s ∧ items_order s' = items_order s).
Proof.
  split; [|split].
  - destruct (borrow_item_outcome loan e s)
      as [(it & b & Hit & Hav & Hb & Hp & Heq)|[Hf _]].
    + split; [intros _; by exists it, b | intros _; rewrite Heq; by eexists].
    + split; [done|]. intros (it & b & Hit & Hav & Hb & Hp). destruct Hf.
      rewrite borrow_item_eq, Hit, Hav, Hb. unfold POINTS_FOR_BORROW.
      destruct (Z.ltb_spec (u_points b) 5); [lia | by eexists].
  - intros Hs.
    destruct (borrow_item_outcome loan e s)
      as [(it & b & Hit & Hav & Hb & Hp & Heq)|[Hf _]]; [|done].
    exists it, b. rewrite Heq. simpl. repeat split; try done.
    intros Hfresh. by apply map_size_insert_None.
  - intros Hs.
    destruct (borrow_item_outcome loan e s)
      as [(it & b & Hit & Hav & Hb & Hp & Heq)|[Hf _]]; [|done].
    rewrite Heq. simpl. split; [|split; [|split; [|split; [|split; [|split]]]]].
    + exists it, (set_available it false). rewrite lookup_insert_eq. done.
    + exists b, (set_points b (u_points b - 5)). rewrite lookup_insert_eq. done.
    + apply lookup_insert_eq.
    + intros k Hk. by rewrite lookup_insert_ne.
    + intros k Hk. by rewrite lookup_insert_ne.
    + intros k Hk. by rewrite lookup_insert_ne.
    + done.
Qed.

Lemma borrow_item_spec_witness :
  succeeds (borrow_item (MkLoanCreate "i-drill" "u-bia") (ex_env "l-1") ex_ready) ∧
  _mem_loans ex_ready !! "l-1" = None ∧
  size (_mem_loans
          (borrow_item (MkLoanCreate "i-drill" "u-bia") (ex_env "l-1") ex_ready).2)
  = 1%nat ∧
  ∃ it', _mem_items
           (borrow_item (MkLoanCreate "i-drill" "u-bia") (ex_env "l-1") ex_ready).2
           !! "i-drill" = Some it' ∧
         i_available it' = false.
Proof.
  assert (Hs : succeeds
            (borrow_item (MkLoanCreate "i-drill" "u-bia") (ex_env "l-1") ex_ready)).
  { eexists. vm_compute. reflexivity. }
  split; [exact Hs|]. split; [reflexivity|].
  destruct (borrow_item_spec ex_ready (MkLoanCreate "i-drill" "u-bia") (ex_env "l-1"))
    as (_ & H & H').
  split.
  - destruct (H Hs) as (it & b & _ & _ & _ & _ & _ & _ & _ & Hsz).
    rewrite Hsz; reflexivity.
  - destruct (H' Hs) as ((it & it' & _ & Hit' & _ & Hav' & _) & _).
    exists it'. split; [exact Hit' | exact Hav'].
Defined.

(** C5. An item that exists and is unavailable cannot be borrowed: the
    request fails with 409 whoever the borrower is and whatever points the
    borrower holds, and the store is left as it was. *)
Theorem borrow_item_unavailable_conflict
    (s : Store) (loan : LoanCreate) (e : Env) (it : ItemDoc) :
  _mem_items s !! lc_item_id loan = Some it →
  i_available it = false →
  raises 409 (borrow_item loan e s) ∧ (borrow_item loan e s).2 = s.
Proof.
  intros Hit Hav. rewrite borrow_item_eq, Hit, Hav. split; [|done].
  by eexists.
Qed.

Lemma borrow_item_unavailable_conflict_witness :
  _mem_items ex_lent !! "i-drill"
    = Some (MkItemDoc "drill" None "u-ana" false "2024-05-01T10:00:00" "i-drill") ∧
  (∃ b, _mem_users ex_lent !! "u-ana" = Some b ∧ (5 ≤ u_points b)%Z) ∧
  raises 409 (borrow_item (MkLoanCreate "i-drill" "u-ana") (ex_env "l-2") ex_lent).
Proof.
  split; [reflexivity|]. split.
  - eexists. split; [reflexivity|]. vm_compute. discriminate.
  - eapply (borrow_item_unavailable_conflict ex_lent
              (MkLoanCreate "i-drill" "u-ana") (ex_env "l-2")); reflexivity.
Defined.

(** C6, as stated, fails: with the drill on loan, a borrow request naming
    a borrower that does not exist is answered 409, not 404. The
    availability of the item is tested before the borrower is looked up. *)
Lemma borrow_item_unknown_borrower_of_lent_item :
  _mem_users ex_lent !! "u-nobody" = None ∧
  (∃ it, _mem_items ex_lent !! "i-drill" = Some it ∧ i_available it = false) ∧
  (borrow_item (MkLoanCreate "i-drill" "u-nobody") (ex_env "l-2") ex_lent).1
    = inl (HTTPException 409 "Item já está emprestado") ∧
  ¬ raises 404 (borrow_item (MkLoanCreate "i-drill" "u-nobody") (ex_env "l-2") ex_lent).
Proof.
  split; [reflexivity|]. split; [eexists; split; reflexivity|].
  split; [reflexivity|].
  intros [d Hd]. vm_compute in Hd. discriminate.
Qed.

(** C6, amended. The checks of borrow run in the order: the item exists
    (else 404), the item is available (else 409), the borrower exists
    (else 404), the borrower holds at least 5 points (else 403). So a
    request whose borrower does not exist fails with 404 when the item is
    missing or available, and with 409 exactly when the item exists and is
    unavailable. *)
Theorem borrow_item_check_order (s : Store) (loan : LoanCreate) (e : Env) :
  let r := borrow_item loan e s in
  (_mem_items s !! lc_item_id loan = None → raises 404 r) ∧
  (∀ it, _mem_items s !! lc_item_id loan = Some it →
         i_available it = false → raises 409 r) ∧
  (∀ it, _mem_items s !! lc_item_id loan = Some it →
         i_available it = true →
         _mem_users s !! lc_borrower_id loan = None → raises 404 r) ∧
  (∀ it b, _mem_items s !! lc_item_id loan = Some it →
           i_available it = true →
           _mem_users s !! lc_borrower_id loan = Some b →
           (u_points b < 5)%Z → raises 403 r) ∧
  (_mem_users s !! lc_borrower_id loan = None →
     (raises 409 r ↔
        ∃ it, _mem_items s !! lc_item_id loan = Some it ∧ i_available it = false) ∧
     (raises 404 r ↔
        ¬ ∃ it, _mem_items s !! lc_item_id loan = Some it ∧ i_available it = false)).
Proof.
  intros r. subst r. rewrite borrow_item_eq. unfold raises, POINTS_FOR_BORROW.
  split; [|split; [|split; [|split]]].
  - intros ->. by eexists.
  - intros it -> ->. by eexists.
  - intros it -> -> ->. by eexists.
  - intros it b -> -> -> Hlt.
    destruct (Z.ltb_spec (u_points b) 5); [by eexists | lia].
  - intros Hb. split; split.
    + intros [d Hd]. destruct (_mem_items s !! lc_item_id loan) as [it|]; [|done].
      destruct (i_available it) eqn:Hav; [|by eauto].
      rewrite Hb in Hd. done.
    + intros (it & -> & ->). by eexists.
    + intros [d Hd] (it & Hit & Hav). rewrite Hit, Hav in Hd. done.
    + intros Hno. destruct (_mem_items s !! lc_item_id loan) as [it|]; [|by eexists].
      destruct (i_available it) eqn:Hav.
      * rewrite Hb. by eexists.
      * destruct Hno. eauto.
Qed.

Lemma borrow_item_check_order_witness :
  _mem_users ex_ready !! "u-nobody" = None ∧
  (∃ it, _mem_items ex_ready !! "i-drill" = Some it ∧ i_available it = true) ∧
  raises 404 (borrow_item (MkLoanCreate "i-drill" "u-nobody") (ex_env "l-1") ex_ready).
Proof.
  split; [reflexivity|]. split; [eexists; split; reflexivity|].
  destruct (borrow_item_check_order ex_ready
              (MkLoanCreate "i-drill" "u-nobody") (ex_env "l-1"))
    as (_ & _ & H & _).
  eapply H; reflexivity.
Defined.

(** C7, as stated, fails in its error code: a request whose borrower does
    not exist, for an item that is on loan, fails with 409 (and leaves the
    store unchanged). *)
Lemma borrow_item_missing_borrower_not_always_404 :
  _mem_users ex_lent !! "u-ghost" = None ∧
  raises 409 (borrow_item (MkLoanCreate "i-drill" "u-ghost") (ex_env "l-9") ex_lent) ∧
  ¬ raises 404 (borrow_item (MkLoanCreate "i-drill" "u-ghost") (ex_env "l-9") ex_lent).
Proof.
  split; [reflexivity|].
  assert (H : raises 409
            (borrow_item (MkLoanCreate "i-drill" "u-ghost") (ex_env "l-9") ex_lent)).
  { eexists. reflexivity. }
  split; [exact H|].
  intros H'. pose proof (raises_code_unique _ _ _ H H'). discriminate.
Qed.

(** C7, amended. A borrow request whose item does not exist, or whose
    borrower does not exist, fails and leaves users, items and loans
    exactly as they were. It fails with 404 when the item does not exist,
    and when the borrower does not exist and the item is available; when
    the borrower does not exist and the item exists but is unavailable it
    fails with 409. *)
Theorem borrow_item_missing_reference (s : Store) (loan : LoanCreate) (e : Env) :
  _mem_items s !! lc_item_id loan = None ∨
  _mem_users s !! lc_borrower_id loan = None →
  (borrow_item loan e s).2 = s ∧
  (_mem_items s !! lc_item_id loan = None → raises 404 (borrow_item loan e s)) ∧
  (∀ it, _mem_items s !! lc_item_id loan = Some it → i_available it = true →
         raises 404 (borrow_item loan e s)) ∧
  (∀ it, _mem_items s !! lc_item_id loan = Some it → i_available it = false →
         raises 409 (borrow_item loan e s)).
Proof.
  intros Hmiss. rewrite borrow_item_eq. unfold raises.
  destruct (_mem_items s !! lc_item_id loan) as [it|] eqn:Hit.
  - destruct Hmiss as [?|Hb]; [done|]. rewrite Hb.
    destruct (i_available it) eqn:Hav; repeat split; intros; simplify_eq;
      first [done | by eexists | congruence].
  - repeat split; intros; simplify_eq; first [done | by eexists].
Qed.

Lemma borrow_item_missing_reference_witness :
  _mem_items ex_ready !! "i-saw" = None ∧
  (borrow_item (MkLoanCreate "i-saw" "u-bia") (ex_env "l-1") ex_ready).2 = ex_ready ∧
  raises 404 (borrow_item (MkLoanCreate "i-saw" "u-bia") (ex_env "l-1") ex_ready).
Proof.
  split; [reflexivity|].
  destruct (borrow_item_missing_reference ex_ready
              (MkLoanCreate "i-saw" "u-bia") (ex_env "l-1")) as (H1 & H2 & _).
  { left. reflexivity. }
  split; [exact H1|]. apply H2. reflexivity.
Defined.

(** C10. When the item exists and is available and the borrower exists
    with fewer than 5 points, borrow fails with 403 and leaves users,
    items and loans exactly as they were. *)
Theorem borrow_item_insufficient_points
    (s : Store) (loan : LoanCreate) (e : Env) (it : ItemDoc) (b : UserDoc) :
  _mem_items s !! lc_item_id loan = Some it →
  i_available it = true →
  _mem_users s !! lc_borrower_id loan = Some b →
  (u_points b < 5)%Z →
  raises 403 (borrow_item loan e s) ∧ (borrow_item loan e s).2 = s.
Proof.
  intros Hit Hav Hb Hlt. rewrite borrow_item_eq, Hit, Hav, Hb.
  unfold POINTS_FOR_BORROW.
  destruct (Z.ltb_spec (u_points b) 5); [|lia].
  split; [by eexists | done].
Qed.

Lemma borrow_item_insufficient_points_witness :
  (∃ b, _mem_users ex_poor !! "u-bia" = Some b ∧ (u_points b < 5)%Z) ∧
  raises 403 (borrow_item (MkLoanCreate "i-drill" "u-bia") (ex_env "l-1") ex_poor) ∧
  (borrow_item (MkLoanCreate "i-drill" "u-bia") (ex_env "l-1") ex_poor).2 = ex_poor.
Proof.
  split.
  - eexists. split; [reflexivity|]. vm_compute. reflexivity.
  - eapply (borrow_item_insufficient_points ex_poor
              (MkLoanCreate "i-drill" "u-bia") (ex_env "l-1")); try reflexivity.
Defined.

(** ** Returning *)

(** C2. Returning an item that exists succeeds and leaves its document
    with [available] true, whatever the flag was; no user document and no
    loan document changes, so no points are refunded or credited; when the
    item was already available the store is exactly what it was. Returning
    an id that resolves to no item fails with 404 (and changes nothing). *)
Theorem return_item_spec (s : Store) (item_id : string) (e : Env) :
  let r := return_item item_id e s in
  (∀ it, _mem_items s !! item_id = Some it →
     succeeds r ∧
     _mem_items r.2 = <[item_id := set_available it true]> (_mem_items s) ∧
     (∃ it', _mem_items r.2 !! item_id = Some it' ∧ i_available it' = true) ∧
     _mem_users r.2 = _mem_users s ∧
     _mem_loans r.2 = _mem_loans s ∧
     (i_available it = true → r.2 = s)) ∧
  (_mem_items s !! item_id = None → raises 404 r ∧ r.2 = s).
Proof.
  intros r. subst r. rewrite return_item_eq. split.
  - intros it Hit. rewrite Hit. simpl. repeat split.
    + by eexists.
    + eexists. split; [apply lookup_insert_eq | done].
    + intros Hav. rewrite <- Hav, set_available_id.
      rewrite insert_id by exact Hit. apply store_eta.
  - intros ->. split; [by eexists | done].
Qed.

Lemma return_item_spec_witness :
  (∃ it, _mem_items ex_lent !! "i-drill" = Some it ∧ i_available it = false) ∧
  succeeds (return_item "i-drill" (ex_env "r-1") ex_lent) ∧
  (∃ it', _mem_items (return_item "i-drill" (ex_env "r-1") ex_lent).2 !! "i-drill"
            = Some it' ∧ i_available it' = true) ∧
  _mem_users (return_item "i-drill" (ex_env "r-1") ex_lent).2 = _mem_users ex_lent.
Proof.
  split; [eexists; split; reflexivity|].
  destruct (return_item_spec ex_lent "i-drill" (ex_env "r-1")) as [H _].
  destruct (H (MkItemDoc "drill" None "u-ana" false "2024-05-01T10:00:00" "i-drill"))
    as (H1 & _ & H3 & H4 & _); [reflexivity|].
  split; [exact H1|]. split; [exact H3 | exact H4].
Defined.

(** ** Creating items *)

Lemma create_items_points (reqs : list (ItemCreate * Env)) :
  ∀ (s : Store) (owner : string) (u : UserDoc),
    _mem_users s !! owner = Some u →
    Forall (λ ie, ic_owner_id ie.1 = owner) reqs →
    ∃ u', _mem_users (create_items reqs s) !! owner = Some u' ∧
          u_points u' = (u_points u + 10 * Z.of_nat (length reqs))%Z.
Proof.
  induction reqs as [|[item e] reqs IH]; intros s owner u Hu Hall.
  - exists u. split; [done|]. simpl. lia.
  - apply Forall_cons in Hall as [Ho Hall]. simpl in Ho.
    unfold create_items. simpl. rewrite create_item_eq, Ho, Hu. simpl.
    edestruct (IH (MkStore
                 (<[owner := set_points u (u_points u + POINTS_FOR_LENDING)]>
                    (_mem_users s))
                 (<[env_uuid e := item_doc item e]> (_mem_items s))
                 (_mem_loans s)
           (users_order s) (order_put (_mem_items s) (env_uuid e) (items_order s))) owner) as (u' & Hu' & Hp).
    { simpl. apply lookup_insert_eq. }
    { exact Hall. }
    exists u'. split; [exact Hu'|].
    rewrite Hp. simpl. unfold POINTS_FOR_LENDING. lia.
Qed.

(** C3. Creating an item fails with 404 (and changes nothing) when the
    owner id resolves to no user. Otherwise it succeeds: the item is
    stored under the generated id with [available] true, the response
    shows it available, the owner's document has its points raised by
    exactly 10 and is otherwise the same, and nothing else changes. The
    credit is unconditional and unbounded: [n] creations in a row by the
    same owner raise the owner's points by [10 * n]. *)
Theorem create_item_spec (s : Store) (item : ItemCreate) (e : Env) :
  let r := create_item item e s in
  (_mem_users s !! ic_owner_id item = None → raises 404 r ∧ r.2 = s) ∧
  (∀ u, _mem_users s !! ic_owner_id item = Some u →
     (∃ out, r.1 = inr out ∧ io_available out = true ∧ io_id out = env_uuid e) ∧
     _mem_items r.2 = <[env_uuid e := item_doc item e]> (_mem_items s) ∧
     i_available (item_doc item e) = true ∧
     _mem_users r.2 =
       <[ic_owner_id item := set_points u (u_points u + 10)]> (_mem_users s) ∧
     _mem_loans r.2 = _mem_loans s) ∧
  (∀ u reqs,
     _mem_users s !! ic_owner_id item = Some u →
     Forall (λ ie, ic_owner_id ie.1 = ic_owner_id item) reqs →
     ∃ u', _mem_users (create_items reqs s) !! ic_owner_id item = Some u' ∧
           u_points u' = (u_points u + 10 * Z.of_nat (length reqs))%Z).
Proof.
  intros r. subst r. rewrite create_item_eq. split; [|split].
  - intros ->. split; [by eexists | done].
  - intros u ->. simpl. repeat split. by eexists.
  - intros u reqs Hu Hall. by eapply create_items_points.
Qed.

Lemma create_item_spec_witness :
  (∃ u, _mem_users ex_ready !! "u-ana" = Some u ∧ u_points u = 10%Z) ∧
  (∃ u', _mem_users
           (create_items
              [ (MkItemCreate "saw" None "u-ana", ex_env "i-saw");
                (MkItemCreate "vise" None "u-ana", ex_env "i-vise") ]
              ex_ready) !! "u-ana" = Some u' ∧
         u_points u' = 30%Z).
Proof.
  split; [eexists; split; reflexivity|].
  destruct (create_item_spec ex_ready (MkItemCreate "saw" None "u-ana") (ex_env "i-saw"))
    as (_ & _ & H).
  destruct (H (MkUserDoc "Ana" "ana@example.org" 10 "2024-05-01T10:00:00" "u-ana")
              [ (MkItemCreate "saw" None "u-ana", ex_env "i-saw");
                (MkItemCreate "vise" None "u-ana", ex_env "i-vise") ])
    as (u' & Hu' & Hp).
  { reflexivity. }
  { repeat constructor. }
  exists u'. split; [exact Hu'|]. rewrite Hp. reflexivity.
Defined.

(** ** The pattern matcher against the language of the pattern *)

Lemma nullable_spec (r : regex) : nullable r = true ↔ lang r [].
Proof.
  induction r as [| | c | c | r1 IH1 r2 IH2 | r1 IH1 r2 IH2 | r IH]; simpl.
  - split; [done | inversion 1].
  - split; [constructor | done].
  - split; [done | inversion 1].
  - split; [done | inversion 1].
  - rewrite andb_true_iff, IH1, IH2. split.
    + intros [H1 H2]. by apply (lang_cat _ _ [] []).
    + inversion 1 as [| | |? ? s1 s2 H1 H2| | | |]; subst.
      destruct s1; [|discriminate]. destruct s2; [done|discriminate].
  - rewrite orb_true_iff, IH1, IH2. split.
    + intros [?|?]; [by apply lang_alt_l | by apply lang_alt_r].
    + inversion 1; subst; auto.
  - split; [constructor | done].
Qed.

Lemma lang_star_cons_inv (r : regex) (a : ascii) (s : list ascii) :
  lang (Star r) (a :: s) →
  ∃ s1 s2, s = (s1 ++ s2)%list ∧ lang r (a :: s1) ∧ lang (Star r) s2.
Proof.
  intros H. remember (Star r) as r' eqn:Hr. remember (a :: s) as w eqn:Hw.
  induction H as [| | | | | | |r0 s1 s2 H1 _ H2 IH2]; try discriminate.
  injection Hr as ->. destruct s1 as [|b s1]; simplify_eq/=.
  - by apply IH2.
  - eauto.
Qed.

Lemma deriv_spec (r : regex) :
  ∀ (a : ascii) (s : list ascii), lang (deriv a r) s ↔ lang r (a :: s).
Proof.
  induction r as [| | c | c | r1 IH1 r2 IH2 | r1 IH1 r2 IH2 | r IH];
    intros a s; simpl.
  - split; inversion 1.
  - split; inversion 1.
  - destruct (Ascii.eqb_spec a c) as [->|Hne].
    + split; inversion 1; subst; constructor.
    + split; inversion 1; subst; done.
  - destruct (Ascii.eqb_spec a c) as [->|Hne].
    + split; inversion 1; subst; done.
    + split; inversion 1; subst; by constructor.
  - assert (Hcat : lang (Cat (deriv a r1) r2) s ↔
                   ∃ s1 s2, s = (s1 ++ s2)%list ∧ lang r1 (a :: s1) ∧ lang r2 s2).
    { split.
      - inversion 1 as [| | |? ? s1 s2 H1 H2| | | |]; subst.
        exists s1, s2. by rewrite <- IH1.
      - intros (s1 & s2 & -> & H1 & H2). constructor; [by apply IH1 | done]. }
    assert (Hgoal : lang (Cat r1 r2) (a :: s) ↔
                    (∃ s1 s2, s = (s1 ++ s2)%list ∧ lang r1 (a :: s1) ∧ lang r2 s2)
                    ∨ (lang r1 [] ∧ lang r2 (a :: s))).
    { split.
      - inversion 1 as [| | |? ? s1 s2 H1 H2| | | |]; subst.
        destruct s1 as [|b s1]; simplify_eq/=.
        + by right.
        + left. eauto.
      - intros [(s1 & s2 & -> & H1 & H2)|[H1 H2]].
        + by apply (lang_cat _ _ (a :: s1) s2).
        + by apply (lang_cat _ _ [] (a :: s)). }
    rewrite Hgoal. destruct (nullable r1) eqn:Hn.
    + split.
      * inversion 1; subst.
        -- left. by apply Hcat.
        -- right. split; [by apply nullable_spec | by apply IH2].
      * intros [H|[_ H]].
        -- apply lang_alt_l. by apply Hcat.
        -- apply lang_alt_r. by apply IH2.
    + rewrite Hcat. split; [by left|].
      intros [H|[H _]]; [done|].
      apply nullable_spec in H. congruence.
  - split.
    + inversion 1; subst.
      * apply lang_alt_l. by apply IH1.
      * apply lang_alt_r. by apply IH2.
    + inversion 1; subst.
      * apply lang_alt_l. by apply IH1.
      * apply lang_alt_r. by apply IH2.
  - split.
    + inversion 1 as [| | |? ? s1 s2 H1 H2| | | |]; subst.
      apply (lang_star_app _ (a :: s1) s2); [by apply IH | done].
    + intros H. apply lang_star_cons_inv in H as (s1 & s2 & -> & H1 & H2).
      constructor; [by apply IH | done].
Qed.

(** [re_match] finds a match exactly when a prefix of the subject is in
    the language of the pattern. *)
Lemma re_match_spec (s : list ascii) :
  ∀ r : regex,
    re_match r s = true ↔ ∃ p rest, s = (p ++ rest)%list ∧ lang r p.
Proof.
  induction s as [|a s IH]; intros r; simpl.
  - rewrite orb_false_r, nullable_spec. split.
    + intros H. by exists [], [].
    + intros (p & rest & Heq & H). symmetry in Heq.
      apply app_eq_nil in Heq as [-> _]. done.
  - rewrite orb_true_iff, nullable_spec, IH. split.
    + intros [H|(p & rest & -> & H)].
      * by exists [], (a :: s).
      * exists (a :: p), rest. split; [done|]. by apply deriv_spec.
    + intros (p & rest & Heq & H). destruct p as [|b p]; [by left|].
      simpl in Heq. injection Heq as <- ->. right.
      exists p, rest. split; [done|]. by apply deriv_spec.
Qed.

Lemma lang_cat_inv (r1 r2 : regex) (s : list ascii) :
  lang (Cat r1 r2) s ↔
  ∃ s1 s2, s = (s1 ++ s2)%list ∧ lang r1 s1 ∧ lang r2 s2.
Proof.
  split.
  - inversion 1; subst. eauto.
  - intros (s1 & s2 & -> & H1 & H2). by constructor.
Qed.

Lemma lang_chr_inv (c : ascii) (s : list ascii) : lang (Chr c) s ↔ s = [c].
Proof. split; [by inversion 1 | intros ->; constructor]. Qed.

Lemma lang_star_notchr (c : ascii) (s : list ascii) :
  lang (Star (NotChr c)) s ↔ Forall (λ a, a ≠ c) s.
Proof.
  split.
  - intros H. remember (Star (NotChr c)) as r eqn:Hr.
    induction H as [| | | | | | |r0 s1 s2 H1 _ H2 IH2]; try discriminate.
    + constructor.
    + injection Hr as ->. inversion H1; subst. constructor; [done | by apply IH2].
  - induction 1 as [|a s Ha _ IH]; [constructor|].
    apply (lang_star_app _ [a] s); [by constructor | done].
Qed.

Lemma lang_plus_notchr (c : ascii) (s : list ascii) :
  lang (Plus (NotChr c)) s ↔ s ≠ [] ∧ Forall (λ a, a ≠ c) s.
Proof.
  unfold Plus. rewrite lang_cat_inv. split.
  - intros (s1 & s2 & -> & H1 & H2). inversion H1; subst.
    apply lang_star_notchr in H2. split; [done | by constructor].
  - intros [Hne H]. destruct H as [|a s Ha H]; [done|].
    exists [a], s. split; [done|]. split; [by constructor | by apply lang_star_notchr].
Qed.

(** The language of the email pattern: a non-empty text, ["@"], a
    non-empty text, ["."], a non-empty text, none of the texts holding an
    ["@"]. *)
Lemma lang_EMAIL_RE (p : list ascii) :
  lang EMAIL_RE p ↔
  ∃ l d t,
    p = (l ++ "@"%char :: d ++ "."%char :: t)%list ∧
    l ≠ [] ∧ d ≠ [] ∧ t ≠ [] ∧ at_free l ∧ at_free d ∧ at_free t.
Proof.
  unfold EMAIL_RE, at_free. split.
  - intros H.
    apply lang_cat_inv in H as (l & p1 & -> & Hl & H).
    apply lang_cat_inv in H as (a & p2 & -> & Ha & H).
    apply lang_cat_inv in H as (d & p3 & -> & Hd & H).
    apply lang_cat_inv in H as (b & t & -> & Hb & Ht).
    apply lang_chr_inv in Ha as ->. apply lang_chr_inv in Hb as ->.
    apply lang_plus_notchr in Hl as [? ?].
    apply lang_plus_notchr in Hd as [? ?].
    apply lang_plus_notchr in Ht as [? ?].
    exists l, d, t. done.
  - intros (l & d & t & -> & ? & ? & ? & ? & ? & ?).
    apply lang_cat; [by apply lang_plus_notchr|].
    apply (lang_cat _ _ ["@"%char]); [constructor|].
    apply lang_cat; [by apply lang_plus_notchr|].
    apply (lang_cat _ _ ["."%char]); [constructor|].
    by apply lang_plus_notchr.
Qed.

(** What [simple_email] accepts, exactly: the texts that START with
    [text@text.text], the three texts non-empty and free of ["@"];
    anything may follow. *)
Lemma simple_email_accepts_iff (v : string) :
  (∃ stored, simple_email v = inr stored) ↔ starts_with_email v.
Proof.
  unfold simple_email, starts_with_email.
  destruct (re_match EMAIL_RE (list_ascii_of_string v)) eqn:Hm; simpl.
  - split; [intros _ | by eauto].
    apply re_match_spec in Hm as (p & rest & Hv & Hp).
    apply lang_EMAIL_RE in Hp as (l & d & t & -> & H).
    exists l, d, t, rest. split; [|done].
    rewrite Hv, <- !app_assoc. simpl. by rewrite <- !app_assoc.
  - split; [by intros [? ?]|].
    intros (l & d & t & rest & Hv & H).
    assert (re_match EMAIL_RE (list_ascii_of_string v) = true); [|congruence].
    apply re_match_spec. exists (l ++ "@"%char :: d ++ "."%char :: t)%list, rest.
    split.
    + rewrite Hv, <- !app_assoc. simpl. by rewrite <- !app_assoc.
    + apply lang_EMAIL_RE. exists l, d, t. done.
Qed.

Lemma simple_email_accepts_trailing_text :
  simple_email "a@b.c@d" = inr "a@b.c@d".
Proof. reflexivity. Qed.

Lemma simple_email_rejects_double_at :
  simple_email "a@@b.c" = inl "email inválido".
Proof. reflexivity. Qed.

Lemma string_of_list_ascii_app (l1 l2 : list ascii) :
  string_of_list_ascii (l1 ++ l2) =
  (string_of_list_ascii l1 ++ string_of_list_ascii l2)%string.
Proof. induction l1 as [|a l1 IH]; simpl; [done | by rewrite IH]. Qed.

Lemma string_of_list_ascii_nonempty (l : list ascii) :
  l ≠ [] → string_of_list_ascii l ≠ "".
Proof. by destruct l. Qed.

(** Whatever the validator accepts has the shape [text@text.text]. *)
Lemma simple_email_accepts_shape (v stored : string) :
  simple_email v = inr stored → email_shape v.
Proof.
  intros H.
  destruct (proj1 (simple_email_accepts_iff v)) as
    (l & d & t & rest & Hv & Hl & Hd & Ht & _); [by eauto|].
  exists (string_of_list_ascii l), (string_of_list_ascii d),
    (string_of_list_ascii (t ++ rest)).
  repeat split; try by apply string_of_list_ascii_nonempty.
  - apply string_of_list_ascii_nonempty. by destruct t.
  - rewrite <- (string_of_list_ascii_of_string v), Hv.
    rewrite string_of_list_ascii_app. simpl.
    rewrite string_of_list_ascii_app. simpl. done.
Qed.

(** ** Lower-casing and trimming *)

Lemma py_lower_char_not_upper (c : ascii) : py_isupper (py_lower_char c) = false.
Proof. destruct c as [[] [] [] [] [] [] [] []]; reflexivity. Qed.

Lemma py_lower_char_space (c : ascii) :
  py_isspace (py_lower_char c) = py_isspace c.
Proof. destruct c as [[] [] [] [] [] [] [] []]; reflexivity. Qed.

Lemma lstrip_chars_spec (l : list ascii) :
  ∃ pre, l = (pre ++ lstrip_chars l)%list ∧
         Forall (λ c, py_isspace c = true) pre ∧
         (∀ c t', lstrip_chars l = c :: t' → py_isspace c = false).
Proof.
  induction l as [|a l (pre & Heq & Hpre & Hhd)]; simpl.
  - exists []. by repeat split.
  - destruct (py_isspace a) eqn:Ha.
    + exists (a :: pre). repeat split; [simpl; by f_equal | by constructor | done].
    + exists []. repeat split; [done|]. intros c t' ?. by simplify_eq.
Qed.

Lemma rstrip_chars_spec (l : list ascii) :
  ∃ post, l = (rstrip_chars l ++ post)%list ∧
          Forall (λ c, py_isspace c = true) post ∧
          (∀ t' c, rstrip_chars l = (t' ++ [c])%list → py_isspace c = false).
Proof.
  unfold rstrip_chars.
  destruct (lstrip_chars_spec (rev l)) as (pre & Heq & Hpre & Hhd).
  exists (rev pre). repeat split.
  - rewrite <- rev_app_distr, <- Heq. by rewrite rev_involutive.
  - by apply Forall_rev.
  - intros t' c Ht. apply (Hhd c (rev t')).
    rewrite <- (rev_involutive (lstrip_chars (rev l))), Ht.
    by rewrite rev_app_distr.
Qed.

(** [strip] computes the trimmed text. *)
Lemma strip_chars_trimmed (w : list ascii) :
  trimmed_of w (rstrip_chars (lstrip_chars w)).
Proof.
  destruct (lstrip_chars_spec w) as (pre & Hw & Hpre & Hhd).
  destruct (rstrip_chars_spec (lstrip_chars w)) as (post & Hm & Hpost & Hlast).
  exists pre, post. repeat split; try done.
  - by rewrite <- Hm.
  - intros c t' Ht. apply (Hhd c (t' ++ post)%list).
    by rewrite Hm at 1; rewrite Ht.
Qed.

Lemma py_strip_lower_normalised (v : string) :
  normalised_email v (py_strip (py_lower v)).
Proof.
  unfold normalised_email, py_strip, py_lower.
  rewrite !list_ascii_of_string_of_list_ascii. apply strip_chars_trimmed.
Qed.

Lemma trimmed_of_Forall (P : ascii → Prop) (w t : list ascii) :
  trimmed_of w t → Forall P w → Forall P t.
Proof.
  intros (pre & post & -> & _) H.
  apply Forall_app in H as [_ H]. by apply Forall_app in H as [H _].
Qed.

Lemma py_lower_char_idem (c : ascii) :
  py_lower_char (py_lower_char c) = py_lower_char c.
Proof. destruct c as [[] [] [] [] [] [] [] []]; reflexivity. Qed.

Lemma lstrip_chars_map_lower (l : list ascii) :
  lstrip_chars (map py_lower_char l) = map py_lower_char (lstrip_chars l).
Proof.
  induction l as [|c l IH]; simpl; [done|].
  rewrite py_lower_char_space. by destruct (py_isspace c).
Qed.

Lemma rstrip_chars_map_lower (l : list ascii) :
  rstrip_chars (map py_lower_char l) = map py_lower_char (rstrip_chars l).
Proof.
  unfold rstrip_chars.
  by rewrite <- map_rev, lstrip_chars_map_lower, map_rev.
Qed.

Lemma lstrip_chars_fixed (t : list ascii) :
  (∀ c t', t = c :: t' → py_isspace c = false) → lstrip_chars t = t.
Proof.
  destruct t as [|c t]; [done|]. intros H. simpl. by rewrite (H c t).
Qed.

Lemma rstrip_chars_fixed (t : list ascii) :
  (∀ t' c, t = (t' ++ [c])%list → py_isspace c = false) → rstrip_chars t = t.
Proof.
  intros H. unfold rstrip_chars.
  rewrite lstrip_chars_fixed; [apply rev_involutive|].
  intros c t' Hr. apply (H (rev t') c).
  by rewrite <- (rev_involutive t), Hr.
Qed.

Lemma strip_chars_idem (w : list ascii) :
  rstrip_chars (lstrip_chars (rstrip_chars (lstrip_chars w)))
  = rstrip_chars (lstrip_chars w).
Proof.
  destruct (strip_chars_trimmed w) as (pre & post & _ & _ & _ & Hhd & Hlast).
  by rewrite (lstrip_chars_fixed _ Hhd), (rstrip_chars_fixed _ Hlast).
Qed.

Lemma py_strip_lower_idem (v : string) :
  py_strip (py_lower (py_strip (py_lower v))) = py_strip (py_lower v).
Proof.
  unfold py_strip, py_lower. rewrite !list_ascii_of_string_of_list_ascii.
  assert (Hc : ∀ l, rstrip_chars (lstrip_chars (map py_lower_char l))
                    = map py_lower_char (rstrip_chars (lstrip_chars l))).
  { intros l. by rewrite lstrip_chars_map_lower, rstrip_chars_map_lower. }
  f_equal. rewrite (Hc (list_ascii_of_string v)), map_map.
  rewrite (map_ext _ py_lower_char) by (intros; apply py_lower_char_idem).
  by rewrite Hc, strip_chars_idem.
Qed.

(** What the validator returns is a fixed point of its normalisation. *)
Lemma simple_email_inr_again (v st st' : string) :
  simple_email v = inr st → simple_email st = inr st' → st' = st.
Proof.
  unfold simple_email. intros H1 H2.
  destruct (re_match EMAIL_RE (list_ascii_of_string v)); [|done].
  destruct (re_match EMAIL_RE (list_ascii_of_string st)); [|done].
  simpl in *. simplify_eq. apply py_strip_lower_idem.
Qed.

(** ** Registering *)

Lemma post_users_eq (name email : string) (e : Env) (s : Store) :
  app (PostUsers name email) e s =
  match UserCreate_validate name email with
  | inl x => (inl x, s)
  | inr user =>
      (match UserOut_validate (user_out (env_uuid e) (user_doc user e)) with
       | inl fields => inl (ResponseValidationError fields)
       | inr u' => inr (RUser u')
       end,
       MkStore (<[env_uuid e := user_doc user e]> (_mem_users s)) (_mem_items s)
         (_mem_loans s)
           (order_put (_mem_users s) (env_uuid e) (users_order s)) (items_order s))
  end.
Proof.
  simpl. destruct (UserCreate_validate name email) as [x|user]; [done|].
  unfold bind, create_user, create_user_store, response_model, utcnow_isoformat,
    _new_id, users_put, ret, raise. simpl.
  by destruct (UserOut_validate _).
Qed.

(** C4. A registration whose email is not of the shape [text@text.text]
    fails validation (and stores nothing). Every accepted registration
    stores, under the generated id, a user document whose email is the
    submitted one lower-cased and then trimmed of surrounding white space
    (so it holds no upper-case letter and neither starts nor ends with
    white space), whose name is the submitted one and whose points are 0;
    nothing else changes, and the response shows the same email and 0
    points. Exactly: a registration fails validation when the name is
    empty or the email does not start with [text@text.text] with the
    three texts non-empty and free of ["@"], and only then. The user is
    stored as said whenever the request passes validation, also when the
    response then fails to validate. *)
Theorem register_validates_and_normalises_email
    (name email : string) (e : Env) (s : Store) :
  let r := app (PostUsers name email) e s in
  (¬ email_shape email → raises_validation r ∧ r.2 = s) ∧
  (raises_validation r ↔ name = "" ∨ ¬ starts_with_email email) ∧
  (succeeds r →
     ∃ stored : string,
       stored = py_strip (py_lower email) ∧
       normalised_email email stored ∧
       Forall (λ c, py_isupper c = false) (list_ascii_of_string stored) ∧
       _mem_users r.2 =
         <[env_uuid e := MkUserDoc name stored 0 (env_now e) (env_uuid e)]>
           (_mem_users s) ∧
       _mem_items r.2 = _mem_items s ∧
       _mem_loans r.2 = _mem_loans s ∧
       r.1 = inr (RUser (MkUserOut (env_uuid e) name stored 0))) ∧
  (¬ raises_validation r →
     ∃ stored : string,
       stored = py_strip (py_lower email) ∧
       normalised_email email stored ∧
       _mem_users r.2 =
         <[env_uuid e := MkUserDoc name stored 0 (env_now e) (env_uuid e)]>
           (_mem_users s) ∧
       _mem_items r.2 = _mem_items s ∧
       _mem_loans r.2 = _mem_loans s).
Proof.
  intros r. subst r. rewrite post_users_eq. unfold UserCreate_validate.
  split; [|split; [|split]].
  - intros Hshape. destruct (simple_email email) as [msg|stored] eqn:Hv.
    + destruct (1 <=? String.length name)%nat; (split; [by eexists | done]).
    + destruct Hshape. by eapply simple_email_accepts_shape.
  - rewrite <- simple_email_accepts_iff. unfold raises_validation.
    destruct (simple_email email) as [msg|stored] eqn:Hv.
    + split.
      * intros _. right. intros [? ?]; discriminate.
      * intros _. destruct (1 <=? String.length name)%nat; by eexists.
    + destruct name as [|c name]; simpl.
      * split; [by left | intros _; by eexists].
      * split; [intros [? H]; simpl in H; destruct (UserOut_validate _); discriminate|].
        intros [?|Hno]; [done|]. destruct Hno; by eexists.
  - intros [a Ha].
    destruct (simple_email email) as [msg|stored] eqn:Hv;
      destruct (1 <=? String.length name)%nat eqn:Hn; try discriminate.
    assert (Hst : stored = py_strip (py_lower email)).
    { unfold simple_email in Hv.
      destruct (re_match EMAIL_RE (list_ascii_of_string email)); [|discriminate].
      simpl in Hv. by injection Hv as <-. }
    exists stored. split; [done|]. subst stored. repeat split.
    + apply py_strip_lower_normalised.
    + eapply trimmed_of_Forall; [apply py_strip_lower_normalised|].
      apply List.Forall_map, Forall_true. intros c. apply py_lower_char_not_upper.
    + simpl in *. unfold UserOut_validate in *. simpl in *. rewrite Hn in *.
      destruct (simple_email (py_strip (py_lower email))) as [?|st'] eqn:Hv';
        [discriminate|].
      by rewrite (simple_email_inr_again _ _ _ Hv Hv').
  - intros Hnv.
    destruct (simple_email email) as [msg|stored] eqn:Hv;
      destruct (1 <=? String.length name)%nat eqn:Hn;
      try (destruct Hnv; by eexists).
    assert (Hst : stored = py_strip (py_lower email)).
    { unfold simple_email in Hv.
      destruct (re_match EMAIL_RE (list_ascii_of_string email)); [|discriminate].
      simpl in Hv. by injection Hv as <-. }
    exists stored. split; [done|]. subst stored. repeat split.
    apply py_strip_lower_normalised.
Qed.

Lemma register_validates_and_normalises_email_witness :
  succeeds (app (PostUsers "Caio" "  Caio@Example.ORG ") (ex_env "u-caio") ex_ready) ∧
  _mem_users (app (PostUsers "Caio" "  Caio@Example.ORG ") (ex_env "u-caio") ex_ready).2
    !! "u-caio"
  = Some (MkUserDoc "Caio" "caio@example.org" 0 "2024-05-01T10:00:00" "u-caio") ∧
  ¬ email_shape "caio.example.org" ∧
  raises_validation (app (PostUsers "Caio" "caio.example.org") (ex_env "u-caio") ex_ready).
Proof.
  assert (Hs : succeeds
            (app (PostUsers "Caio" "  Caio@Example.ORG ") (ex_env "u-caio") ex_ready)).
  { eexists. vm_compute. reflexivity. }
  split; [exact Hs|]. split.
  - destruct (register_validates_and_normalises_email
                "Caio" "  Caio@Example.ORG " (ex_env "u-caio") ex_ready) as (_ & _ & H & _).
    destruct (H Hs) as (stored & -> & _ & _ & Hu & _). rewrite Hu.
    vm_compute. reflexivity.
  - assert (Hn : ¬ email_shape "caio.example.org").
    { intros (l & d & t & _ & _ & _ & Heq).
      assert (Hin : In "@"%char (list_ascii_of_string "caio.example.org")).
      { rewrite Heq. clear Heq. induction l as [|a l IH]; simpl; auto. }
      vm_compute in Hin. intuition discriminate. }
    split; [exact Hn|].
    by destruct (register_validates_and_normalises_email
                "Caio" "caio.example.org" (ex_env "u-caio") ex_ready) as [H _];
      destruct (H Hn).
Defined.

(** ** Runs *)

Lemma bind_ret_snd {A B} (m : M A) (f : A → B) (e : Env) (s : Store) :
  (bind m (λ a, ret (f a)) e s).2 = (m e s).2.
Proof. unfold bind, ret. by destruct (m e s) as [[x|a] s']. Qed.

Lemma bind_ret_succeeds {A B} (m : M A) (f : A → B) (e : Env) (s : Store) :
  succeeds (bind m (λ a, ret (f a)) e s) ↔ succeeds (m e s).
Proof.
  unfold succeeds, bind, ret. destruct (m e s) as [[x|a] s']; simpl.
  - split; intros [? ?]; discriminate.
  - split; intros _; eauto.
Qed.

Lemma run_snoc (tr : list (Request * Env)) (x : Request * Env) (s : Store) :
  run (tr ++ [x]) s = step (run tr s) x.
Proof. unfold run. by rewrite fold_left_app. Qed.

Lemma run_app (tr1 tr2 : list (Request * Env)) (s : Store) :
  run (tr1 ++ tr2) s = run tr2 (run tr1 s).
Proof. unfold run. by rewrite fold_left_app. Qed.

Lemma step_post_loans (s : Store) (i b : string) (e : Env) :
  step s (PostLoans i b, e) = (borrow_item (MkLoanCreate i b) e s).2.
Proof. unfold step. simpl. apply bind_ret_snd. Qed.

Lemma step_post_loans_return (s : Store) (i : string) (e : Env) :
  step s (PostLoansReturn i, e) = (return_item i e s).2.
Proof. unfold step. simpl. apply bind_ret_snd. Qed.

Lemma step_post_items (s : Store) (n : string) (d : option string) (o : string) (e : Env) :
  step s (PostItems n d o, e) =
  if (1 <=? String.length n)%nat
  then (create_item (MkItemCreate n d o) e s).2
  else s.
Proof.
  unfold step, app, ItemCreate_validate. cbn [fst snd].
  destruct n as [|c n]; [done|].
  change (1 <=? String.length (String c n))%nat with true. cbv iota.
  unfold bind. rewrite create_item_eq.
  by destruct (_mem_users s !! ic_owner_id (MkItemCreate (String c n) d o)).
Qed.

Lemma step_post_users (s : Store) (n m : string) (e : Env) :
  step s (PostUsers n m, e) =
  match UserCreate_validate n m with
  | inl _ => s
  | inr user =>
      MkStore (<[env_uuid e := user_doc user e]> (_mem_users s)) (_mem_items s)
        (_mem_loans s)
           (order_put (_mem_users s) (env_uuid e) (users_order s)) (items_order s)
  end.
Proof.
  unfold step. cbn [fst snd]. rewrite post_users_eq.
  by destruct (UserCreate_validate n m).
Qed.

Lemma step_get_users (s : Store) (e : Env) : step s (GetUsers, e) = s.
Proof.
  unfold step, app, bind, list_users, list_users_store, response_model. simpl.
  by destruct (validate_each UserOut_validate _).
Qed.

Lemma step_get_items (s : Store) (e : Env) : step s (GetItems, e) = s.
Proof.
  unfold step, app, bind, list_items, list_items_store, response_model. simpl.
  by destruct (validate_each ItemOut_validate _).
Qed.

(** ** Points never go below zero *)

(** What one request does to the points of the users: a new user starts
    at 0, an owner gains 10, a borrower that holds at least 5 loses 5;
    no request lowers points in any other way. *)
Lemma step_points_ok (s : Store) (x : Request * Env) :
  points_ok s → points_ok (step s x).
Proof.
  unfold points_ok. intros Hinv. destruct x as [[n m| |n d o| |i b|i|] e].
  - rewrite step_post_users. destruct (UserCreate_validate n m); [done|].
    simpl. by apply map_Forall_insert_2.
  - by rewrite step_get_users.
  - rewrite step_post_items. destruct (1 <=? String.length n)%nat; [|done].
    rewrite create_item_eq. simpl.
    destruct (_mem_users s !! o) as [u|] eqn:Hu; [|done].
    simpl. apply map_Forall_insert_2; [|done].
    apply Hinv in Hu. simpl in *. unfold POINTS_FOR_LENDING. lia.
  - by rewrite step_get_items.
  - rewrite step_post_loans, borrow_item_eq. simpl.
    destruct (_mem_items s !! i) as [it|]; [|done].
    destruct (i_available it); [|done].
    destruct (_mem_users s !! b) as [u|] eqn:Hu; [|done].
    unfold POINTS_FOR_BORROW.
    destruct (Z.ltb_spec (u_points u) 5); [done|].
    simpl. apply map_Forall_insert_2; [|done]. simpl. lia.
  - rewrite step_post_loans_return, return_item_eq.
    by destruct (_mem_items s !! i).
  - done.
Qed.

(** C8. In every store reachable from the empty one by any sequence of
    requests (registrations, item creations, borrows, returns, and the
    read-only listings), every user's points are at least 0. *)
Theorem reachable_points_nonnegative (s : Store) :
  reachable s →
  ∀ (k : string) (u : UserDoc), _mem_users s !! k = Some u → (0 ≤ u_points u)%Z.
Proof.
  intros [tr ->]. change (points_ok (run tr empty_store)).
  induction tr as [|x tr IH] using rev_ind.
  - apply map_Forall_empty.
  - rewrite run_snoc. by apply step_points_ok.
Qed.

Lemma reachable_points_nonnegative_witness :
  reachable ex_lent ∧
  _mem_users ex_lent !! "u-bia"
    = Some (MkUserDoc "Bia" "bia@example.org" 5 "2024-05-01T10:00:00" "u-bia") ∧
  (0 ≤ 5)%Z.
Proof.
  assert (Hr : reachable ex_lent).
  { exists (ex_setup ++ [(PostLoans "i-drill" "u-bia", ex_env "l-1")])%list.
    unfold ex_lent, ex_ready. by rewrite run_app. }
  split; [exact Hr|]. split; [reflexivity|].
  exact (reachable_points_nonnegative ex_lent Hr "u-bia"
           (MkUserDoc "Bia" "bia@example.org" 5 "2024-05-01T10:00:00" "u-bia")
           eq_refl).
Defined.

(** ** Availability and the history of loans and returns *)

(** What one request does to the items and the loans. *)
Lemma step_cases (s : Store) (x : Request * Env) :
  (_mem_items (step s x) = _mem_items s ∧ _mem_loans (step s x) = _mem_loans s ∧
   (∀ i e, x = (PostLoansReturn i, e) → _mem_items s !! i = None) ∧
   (∀ loan e, x = (PostLoans (lc_item_id loan) (lc_borrower_id loan), e) →
              ¬ succeeds (borrow_item loan e s)))
  ∨ (∃ n d o e, x = (PostItems n d o, e) ∧
       _mem_items (step s x) =
         <[env_uuid e := item_doc (MkItemCreate n d o) e]> (_mem_items s) ∧
       _mem_loans (step s x) = _mem_loans s)
  ∨ (∃ loan e it,
       x = (PostLoans (lc_item_id loan) (lc_borrower_id loan), e) ∧
       succeeds (borrow_item loan e s) ∧
       _mem_items s !! lc_item_id loan = Some it ∧
       _mem_items (step s x) =
         <[lc_item_id loan := set_available it false]> (_mem_items s) ∧
       _mem_loans (step s x) = <[env_uuid e := loan_doc loan e]> (_mem_loans s))
  ∨ (∃ i e it,
       x = (PostLoansReturn i, e) ∧
       _mem_items s !! i = Some it ∧
       _mem_items (step s x) = <[i := set_available it true]> (_mem_items s) ∧
       _mem_loans (step s x) = _mem_loans s).
Proof.
  destruct x as [[n m| |n d o| |i b|i|] e].
  - left. rewrite step_post_users.
    destruct (UserCreate_validate n m); repeat split; done.
  - left. rewrite step_get_users. repeat split; done.
  - rewrite step_post_items. destruct (1 <=? String.length n)%nat.
    + rewrite create_item_eq.
      destruct (_mem_users s !! ic_owner_id (MkItemCreate n d o)) as [u|].
      * right; left. exists n, d, o, e. done.
      * left. repeat split; done.
    + left. repeat split; done.
  - left. rewrite step_get_items. repeat split; done.
  - rewrite step_post_loans.
    destruct (borrow_item_outcome (MkLoanCreate i b) e s)
      as [(it & u & Hit & _ & _ & _ & Heq)|[Hf Heq]]; simpl in *.
    + right; right; left. exists (MkLoanCreate i b), e, it. rewrite Heq.
      repeat split; try done. by eexists.
    + left. rewrite Heq. repeat split; try done.
      intros [i' b'] e' [= -> -> ->]. done.
  - rewrite step_post_loans_return, return_item_eq.
    destruct (_mem_items s !! i) as [it|] eqn:Hit.
    + right; right; right. exists i, e, it. done.
    + left. repeat split; try done. by intros i' e' [= -> ->].
  - left. repeat split; done.
Qed.

Lemma uuids_fresh_snoc (tr : list (Request * Env)) (x : Request * Env) :
  ∀ s, uuids_fresh (tr ++ [x]) s = uuids_fresh tr s && uuid_fresh (run tr s) x.
Proof.
  induction tr as [|y tr IH]; intros s; simpl.
  - by rewrite andb_true_r.
  - rewrite IH. by rewrite andb_assoc.
Qed.

Lemma items_step_mono (s : Store) (x : Request * Env) (i : string) :
  is_Some (_mem_items s !! i) → is_Some (_mem_items (step s x) !! i).
Proof.
  intros Hi.
  destruct (step_cases s x) as
    [(-> & _)|[(n & d & o & e & _ & -> & _)|[(loan & e & it & _ & _ & _ & -> & _)
     |(j & e & it & _ & _ & -> & _)]]]; try done;
    apply lookup_insert_is_Some'; by right.
Qed.

Lemma items_run_mono (tr : list (Request * Env)) (i : string) :
  ∀ s, is_Some (_mem_items s !! i) → is_Some (_mem_items (run tr s) !! i).
Proof.
  induction tr as [|x tr IH]; intros s Hi; [done|].
  simpl. apply IH. by apply items_step_mono.
Qed.

Lemma loan_created_at_snoc tr pre post l (x : Request * Env) :
  loan_created_at tr pre post l → loan_created_at (tr ++ [x]) pre (post ++ [x]) l.
Proof.
  intros (loan & e & -> & Hs & Hl). exists loan, e. repeat split; try done.
  by rewrite <- app_assoc.
Qed.

Lemma loan_created_at_unsnoc tr pre post l (x y : Request * Env) :
  loan_created_at (tr ++ [x]) pre (post ++ [y]) l →
  loan_created_at tr pre post l ∧ x = y.
Proof.
  intros (loan & e & Heq & Hs & Hl).
  rewrite app_comm_cons, app_assoc in Heq. apply app_inj_tail in Heq as [-> ->].
  split; [|done]. by exists loan, e.
Qed.

(** Every stored loan was created by a successful borrow of the run. *)
Lemma stored_loan_created (tr : list (Request * Env)) :
  ∀ k l, _mem_loans (run tr empty_store) !! k = Some l →
         ∃ pre post, loan_created_at tr pre post l.
Proof.
  induction tr as [|x tr IH] using rev_ind; intros k l Hk.
  - cbn in Hk. by rewrite lookup_empty in Hk.
  - rewrite run_snoc in Hk.
    destruct (step_cases (run tr empty_store) x) as
      [(_ & Hl & _)|[(n & d & o & e & _ & _ & Hl)
       |[(loan & e & it & -> & Hs & _ & _ & Hl)|(j & e & it & _ & _ & _ & Hl)]]];
      rewrite Hl in Hk.
    1,2,4: destruct (IH k l Hk) as (pre & post & Hc);
           exists pre, (post ++ [x])%list; by apply loan_created_at_snoc.
    destruct (decide (env_uuid e = k)) as [Heq|Hne].
    + rewrite Heq, lookup_insert_eq in Hk. injection Hk as <-.
      exists tr, []. by exists loan, e.
    + rewrite lookup_insert_ne in Hk by done.
      destruct (IH k l Hk) as (pre & post & Hc).
      exists pre, (post ++ [(PostLoans (lc_item_id loan) (lc_borrower_id loan), e)])%list.
      by apply loan_created_at_snoc.
Qed.

(** With fresh ids, the document of every successful borrow stays stored
    under its id. *)
Lemma created_loan_stored (post : list (Request * Env)) :
  ∀ tr pre l,
    uuids_fresh tr empty_store = true →
    loan_created_at tr pre post l →
    _mem_loans (run tr empty_store) !! l_id l = Some l.
Proof.
  induction post as [|y post IH] using rev_ind; intros tr pre l Hfresh Hc.
  - destruct Hc as (loan & e & -> & Hs & ->).
    rewrite run_snoc, step_post_loans.
    destruct loan as [i b]. simpl.
    destruct (borrow_item_outcome (MkLoanCreate i b) e (run pre empty_store))
      as [(it & u & _ & _ & _ & _ & Heq)|[Hf _]]; [|done].
    rewrite Heq. apply lookup_insert_eq.
  - destruct tr as [|x tr _] using rev_ind.
    { destruct Hc as (loan & e & Heq & _). by destruct pre. }
    apply loan_created_at_unsnoc in Hc as [Hc ->].
    rewrite uuids_fresh_snoc in Hfresh. apply andb_true_iff in Hfresh as [Hfr Hy].
    specialize (IH tr pre l Hfr Hc). rewrite run_snoc.
    destruct (step_cases (run tr empty_store) y) as
      [(_ & Hl & _)|[(n & d & o & e & _ & _ & Hl)
       |[(loan & e & it & -> & Hs & _ & _ & Hl)|(j & e & it & _ & _ & _ & Hl)]]];
      rewrite Hl; try done.
    unfold uuid_fresh in Hy. simpl in Hy.
    destruct (_mem_loans (run tr empty_store) !! env_uuid e) eqn:Hn; [done|].
    rewrite lookup_insert_ne; [done|]. intros Heq. congruence.
Qed.

Lemma loan_matched_snoc_inv tr (x : Request * Env) l :
  loan_matched (tr ++ [x]) l →
  ∃ pre post,
    loan_created_at tr pre post l ∧
    (returns_item (l_item_id l) post ∨ ∃ e, x = (PostLoansReturn (l_item_id l), e)).
Proof.
  intros (pre & post & Hc & e & Hin).
  destruct post as [|y post _] using rev_ind; [by apply elem_of_nil in Hin|].
  apply loan_created_at_unsnoc in Hc as [Hc ->].
  exists pre, post. split; [done|].
  apply elem_of_app in Hin as [Hin|Hin].
  - left. by exists e.
  - right. apply list_elem_of_singleton in Hin. eauto.
Qed.

Lemma loan_matched_snoc tr (x : Request * Env) l pre post :
  loan_created_at tr pre post l →
  (returns_item (l_item_id l) post ∨ ∃ e, x = (PostLoansReturn (l_item_id l), e)) →
  loan_matched (tr ++ [x]) l.
Proof.
  intros Hc Hr. exists pre, (post ++ [x])%list.
  split; [by apply loan_created_at_snoc|].
  destruct Hr as [[e Hin]|[e ->]]; exists e; apply elem_of_app.
  - by left.
  - right. by apply list_elem_of_singleton.
Qed.

(** A return of the item of a loan, anywhere after the creation of the
    loan, finds the item and succeeds. *)
Lemma return_after_creation_succeeds
    (pre mid : list (Request * Env)) (loan : LoanCreate) (e e' : Env) :
  succeeds (borrow_item loan e (run pre empty_store)) →
  succeeds
    (return_item (lc_item_id loan) e'
       (run (pre ++ (PostLoans (lc_item_id loan) (lc_borrower_id loan), e) :: mid)
          empty_store)).
Proof.
  intros Hs.
  destruct (borrow_item_outcome loan e (run pre empty_store))
    as [(it & u & Hit & _)|[Hf _]]; [|done].
  assert (is_Some (_mem_items
            (run (pre ++ (PostLoans (lc_item_id loan) (lc_borrower_id loan), e) :: mid)
               empty_store) !! lc_item_id loan)) as [it' Hit'].
  { rewrite run_app. apply items_run_mono. eauto. }
  rewrite return_item_eq, Hit'. by eexists.
Qed.

(** A request that is not a return of [i] and that stores or drops no
    loan of [i] keeps the unmatched loans of [i]. *)
Lemma has_unmatched_loan_snoc_other tr (x : Request * Env) (i : string) :
  (∀ k l, l_item_id l = i →
     (_mem_loans (run (tr ++ [x]) empty_store) !! k = Some l ↔
      _mem_loans (run tr empty_store) !! k = Some l)) →
  (∀ e, x ≠ (PostLoansReturn i, e)) →
  (has_unmatched_loan (tr ++ [x]) i ↔ has_unmatched_loan tr i).
Proof.
  intros Hloans Hx. split.
  - intros (k & l & Hk & Hi & Hnm). exists k, l. repeat split; try done.
    + by apply Hloans.
    + intros (pre & post & Hc & Hr). apply Hnm.
      eapply loan_matched_snoc; eauto.
  - intros (k & l & Hk & Hi & Hnm). exists k, l. repeat split; try done.
    + by apply Hloans.
    + intros Hm. apply loan_matched_snoc_inv in Hm as (pre & post & Hc & [Hr|[e ->]]).
      * apply Hnm. by exists pre, post.
      * subst i. by eapply Hx.
Qed.

(** C9. In every store reached from the empty one by a sequence of
    requests in which the generated item ids and loan ids are fresh, an
    item is unavailable exactly when some stored loan for it is unmatched,
    that is, when no return of the item follows the creation of that
    loan. *)
Theorem unavailable_iff_unmatched_loan (tr : list (Request * Env)) :
  uuids_fresh tr empty_store = true →
  ∀ (i : string) (it : ItemDoc),
    _mem_items (run tr empty_store) !! i = Some it →
    (i_available it = false ↔ has_unmatched_loan tr i).
Proof.
  induction tr as [|x tr IH] using rev_ind; intros Hfresh i it Hi.
  { cbn in Hi. by rewrite lookup_empty in Hi. }
  rewrite uuids_fresh_snoc in Hfresh. apply andb_true_iff in Hfresh as [Hfr Hx].
  specialize (IH Hfr). rewrite run_snoc in Hi.
  destruct (step_cases (run tr empty_store) x) as
    [(Hit & Hl & Hret & _)|[(n & d & o & e & -> & Hit & Hl)
     |[(loan & e & it0 & -> & Hs & Hit0 & Hit & Hl)|(j & e & it0 & -> & Hit0 & Hit & Hl)]]];
    rewrite Hit in Hi.
  - (* neither items nor loans change *)
    rewrite (IH i it Hi). symmetry. apply has_unmatched_loan_snoc_other.
    + intros k l _. by rewrite run_snoc, Hl.
    + intros e ->. rewrite (Hret i e eq_refl) in Hi. done.
  - (* an item is created *)
    unfold uuid_fresh in Hx. simpl in Hx.
    destruct (_mem_items (run tr empty_store) !! env_uuid e) eqn:Hnew; [done|].
    destruct (decide (env_uuid e = i)) as [Heq|Hne].
    + rewrite Heq, lookup_insert_eq in Hi. injection Hi as <-. simpl.
      split; [done|]. intros (k & l & Hk & Hli & _). exfalso.
      rewrite run_snoc, Hl in Hk.
      apply stored_loan_created in Hk as (pre & post & loan & e' & Htr & Hok & ->).
      destruct (borrow_item_outcome loan e' (run pre empty_store))
        as [(it1 & _ & Hit1 & _)|[Hf _]]; [|done].
      simpl in Hli. rewrite Hli, <- Heq in Hit1.
      assert (is_Some (_mem_items (run tr empty_store) !! env_uuid e)) as [? ?]; [|congruence].
      rewrite Htr, run_app. apply items_run_mono. eauto.
    + rewrite lookup_insert_ne in Hi by done.
      rewrite (IH i it Hi). symmetry. apply has_unmatched_loan_snoc_other; [|done].
      intros k l _. by rewrite run_snoc, Hl.
  - (* a borrow succeeds *)
    unfold uuid_fresh in Hx. simpl in Hx.
    destruct (_mem_loans (run tr empty_store) !! env_uuid e) eqn:Hnew; [done|].
    destruct (decide (lc_item_id loan = i)) as [Heq|Hne].
    + rewrite Heq, lookup_insert_eq in Hi. injection Hi as <-. simpl.
      split; [intros _|done].
      exists (env_uuid e), (loan_doc loan e). repeat split; [|done|].
      * rewrite run_snoc. rewrite Hl. apply lookup_insert_eq.
      * intros Hm. apply loan_matched_snoc_inv in Hm as (pre & post & Hc & _).
        apply created_loan_stored in Hc; [|done]. simpl in Hc.
        congruence.
    + rewrite lookup_insert_ne in Hi by done.
      rewrite (IH i it Hi). symmetry. apply has_unmatched_loan_snoc_other; [|done].
      intros k l Hli. rewrite run_snoc. rewrite Hl.
      destruct (decide (env_uuid e = k)) as [<-|Hk].
      * rewrite lookup_insert_eq, Hnew. split; [|done].
        intros [= <-]. simpl in Hli. done.
      * by rewrite lookup_insert_ne.
  - (* an item is returned *)
    destruct (decide (j = i)) as [->|Hne].
    + rewrite lookup_insert_eq in Hi. injection Hi as <-. simpl.
      split; [done|]. intros (k & l & Hk & Hli & Hnm). exfalso. apply Hnm.
      rewrite run_snoc in Hk. rewrite Hl in Hk.
      apply stored_loan_created in Hk as (pre & post & Hc).
      eapply loan_matched_snoc; [exact Hc|]. right. exists e. by rewrite Hli.
    + rewrite lookup_insert_ne in Hi by done.
      rewrite (IH i it Hi). symmetry. apply has_unmatched_loan_snoc_other.
      * intros k l _. by rewrite run_snoc, Hl.
      * intros e' [= ->]. done.
Qed.

Lemma unavailable_iff_unmatched_loan_witness :
  uuids_fresh ex_run_lent empty_store = true ∧
  _mem_items (run ex_run_lent empty_store) !! "i-drill"
    = Some (MkItemDoc "drill" None "u-ana" false "2024-05-01T10:00:00" "i-drill") ∧
  has_unmatched_loan ex_run_lent "i-drill" ∧
  uuids_fresh ex_run_returned empty_store = true ∧
  _mem_items (run ex_run_returned empty_store) !! "i-drill"
    = Some (MkItemDoc "drill" None "u-ana" true "2024-05-01T10:00:00" "i-drill") ∧
  ¬ has_unmatched_loan ex_run_returned "i-drill".
Proof.
  split; [reflexivity|]. split; [reflexivity|]. split.
  { apply (unavailable_iff_unmatched_loan ex_run_lent eq_refl "i-drill"
             (MkItemDoc "drill" None "u-ana" false "2024-05-01T10:00:00" "i-drill")
             eq_refl).
    reflexivity. }
  split; [reflexivity|]. split; [reflexivity|].
  intros Hu.
  apply (unavailable_iff_unmatched_loan ex_run_returned eq_refl "i-drill"
           (MkItemDoc "drill" None "u-ana" true "2024-05-01T10:00:00" "i-drill")
           eq_refl) in Hu.
  discriminate Hu.
Defined.

(** Without fresh ids the equivalence is lost: when an item is created
    under the id of an item on loan, that id names an available item
    while the loan stored for it has seen no return. *)
Lemma reused_item_id_available_with_unmatched_loan :
  uuids_fresh ex_run_reused_id empty_store = false ∧
  (∃ it, _mem_items (run ex_run_reused_id empty_store) !! "i-drill" = Some it ∧
         i_available it = true) ∧
  (∃ l, _mem_loans (run ex_run_reused_id empty_store) !! "l-1" = Some l ∧
        l_item_id l = "i-drill" ∧
        ∀ e, (PostLoansReturn "i-drill", e) ∉ ex_run_reused_id).
Proof.
  split; [reflexivity|]. split; [eexists; split; reflexivity|].
  eexists. split; [reflexivity|]. split; [reflexivity|].
  intros e Hin. unfold ex_run_reused_id, ex_run_lent, ex_setup in Hin. simpl in Hin.
  repeat (apply elem_of_cons in Hin as [Hin|Hin]; [discriminate|]).
  by apply elem_of_nil in Hin.
Qed.

(** * Further properties of the handlers *)

(** ** Failures and status codes *)

Lemma bind_ret_eq {A B} (m : M A) (f : A → B) (e : Env) (s : Store) :
  bind m (λ a, ret (f a)) e s =
  match m e s with
  | (inl x, s') => (inl x, s')
  | (inr a, s') => (inr (f a), s')
  end.
Proof. reflexivity. Qed.

Lemma post_loans_eq (i b : string) (e : Env) (s : Store) :
  app (PostLoans i b) e s =
  match borrow_item (MkLoanCreate i b) e s with
  | (inl x, s') => (inl x, s')
  | (inr st, s') => (inr (RStatus st), s')
  end.
Proof. reflexivity. Qed.

Lemma post_loans_return_eq (i : string) (e : Env) (s : Store) :
  app (PostLoansReturn i) e s =
  match _mem_items s !! i with
  | None => (inl (HTTPException 404 "Item não encontrado"), s)
  | Some it =>
      (inr (RStatus "item devolvido com sucesso"),
       MkStore (_mem_users s) (<[i := set_available it true]> (_mem_items s))
         (_mem_loans s)
           (users_order s) (items_order s))
  end.
Proof.
  unfold app. rewrite bind_ret_eq, return_item_eq.
  by destruct (_mem_items s !! i).
Qed.

Lemma post_items_eq (n : string) (d : option string) (o : string) (e : Env) (s : Store) :
  app (PostItems n d o) e s =
  if (1 <=? String.length n)%nat then
    match _mem_users s !! o with
    | None => (inl (HTTPException 404 "owner_id não encontrado"), s)
    | Some u =>
        (inr (RItem (item_out (env_uuid e) (item_doc (MkItemCreate n d o) e))),
         MkStore
           (<[o := set_points u (u_points u + POINTS_FOR_LENDING)]> (_mem_users s))
           (<[env_uuid e := item_doc (MkItemCreate n d o) e]> (_mem_items s))
           (_mem_loans s)
           (users_order s) (order_put (_mem_items s) (env_uuid e) (items_order s)))
    end
  else (inl (ValidationError ["name"]), s).
Proof.
  unfold app, ItemCreate_validate.
  destruct n as [|c n]; [done|].
  change (1 <=? String.length (String c n))%nat with true. cbv iota.
  unfold bind. rewrite create_item_eq. simpl.
  by destruct (_mem_users s !! o).
Qed.

Lemma get_users_eq (e : Env) (s : Store) :
  app GetUsers e s =
  (match validate_each UserOut_validate
           ((λ kv, user_out kv.1 kv.2) <$> dict_items (_mem_users s) (users_order s))
   with
   | inl fields => inl (ResponseValidationError fields)
   | inr us => inr (RUsers us)
   end, s).
Proof.
  unfold app, bind, list_users, list_users_store, response_model. simpl.
  by destruct (validate_each UserOut_validate _).
Qed.

Lemma get_items_eq (e : Env) (s : Store) :
  app GetItems e s =
  (match validate_each ItemOut_validate
           ((λ kv, item_out kv.1 kv.2) <$> dict_items (_mem_items s) (items_order s))
   with
   | inl fields => inl (ResponseValidationError fields)
   | inr its => inr (RItems its)
   end, s).
Proof.
  unfold app, bind, list_items, list_items_store, response_model. simpl.
  by destruct (validate_each ItemOut_validate _).
Qed.

Lemma UserCreate_validate_inr (n m : string) (user : UserCreate) :
  UserCreate_validate n m = inr user →
  uc_name user = n ∧ n ≠ "" ∧ simple_email m = inr (uc_email user).
Proof.
  unfold UserCreate_validate.
  destruct n as [|c n]; simpl; destruct (simple_email m); intros [= <-]; done.
Qed.

Lemma UserCreate_validate_inl (n m : string) (x : Exn) :
  UserCreate_validate n m = inl x →
  (∃ fields, x = ValidationError fields) ∧
  (n = "" ∨ simple_email m = inl "email inválido").
Proof.
  unfold UserCreate_validate, simple_email.
  destruct n as [|c n]; simpl;
    destruct (negb (re_match EMAIL_RE (list_ascii_of_string m)));
    intros [= <-]; split; eauto.
Qed.

(** The response of a registration: only the email can fail to build, and
    when it builds the response is the stored user. *)
Lemma UserOut_validate_created (n m : string) (user : UserCreate) (e : Env) :
  UserCreate_validate n m = inr user →
  UserOut_validate (user_out (env_uuid e) (user_doc user e)) =
  match simple_email (uc_email user) with
  | inl _ => inl ["email"]
  | inr _ => inr (user_out (env_uuid e) (user_doc user e))
  end.
Proof.
  intros Hv. apply UserCreate_validate_inr in Hv as (Hn & Hne & Hm).
  unfold UserOut_validate. simpl. rewrite Hn.
  destruct n as [|c n]; [done|]. simpl.
  destruct (simple_email (uc_email user)) as [?|st'] eqn:Hst; [done|].
  rewrite (simple_email_inr_again _ _ _ Hm Hst).
  unfold user_out, user_doc. simpl. by rewrite Hn.
Qed.

Lemma post_loans_cases (i b : string) (e : Env) (s : Store) :
  (∃ it u,
     _mem_items s !! i = Some it ∧ i_available it = true ∧
     _mem_users s !! b = Some u ∧ (5 ≤ u_points u)%Z ∧
     app (PostLoans i b) e s =
       (inr (RStatus "item emprestado com sucesso"),
        MkStore
          (<[b := set_points u (u_points u - 5)]> (_mem_users s))
          (<[i := set_available it false]> (_mem_items s))
          (<[env_uuid e := loan_doc (MkLoanCreate i b) e]> (_mem_loans s))
           (users_order s) (items_order s)))
  ∨ (∃ c d, c ∈ [404; 409; 403]%Z ∧
            app (PostLoans i b) e s = (inl (HTTPException c d), s)).
Proof.
  rewrite post_loans_eq, borrow_item_eq. simpl. unfold POINTS_FOR_BORROW.
  destruct (_mem_items s !! i) as [it|] eqn:Hit;
    [|right; do 2 eexists; split; [|done]; set_solver].
  destruct (i_available it) eqn:Hav;
    [|right; do 2 eexists; split; [|done]; set_solver].
  destruct (_mem_users s !! b) as [u|] eqn:Hu;
    [|right; do 2 eexists; split; [|done]; set_solver].
  destruct (Z.ltb_spec (u_points u) 5);
    [right; do 2 eexists; split; [|done]; set_solver|].
  left. exists it, u. done.
Qed.

(** A request answered with an [HTTPException] or with a request
    validation error has written nothing, and so has every failing request
    other than a registration. A registration that is answered 500 because
    its response cannot be built has stored the user all the same: the
    stored email passed the validator once and, normalised, does not pass
    it again. *)
Theorem app_error_store_effect (r : Request) (e : Env) (s : Store) (x : Exn) :
  (app r e s).1 = inl x →
  ((∀ fields, x ≠ ResponseValidationError fields) → (app r e s).2 = s) ∧
  ((∀ n m, r ≠ PostUsers n m) → (app r e s).2 = s) ∧
  (∀ n m fields,
     r = PostUsers n m → x = ResponseValidationError fields →
     ∃ stored,
       simple_email m = inr stored ∧
       simple_email stored = inl "email inválido" ∧
       _mem_users (app r e s).2 !! env_uuid e
         = Some (MkUserDoc n stored 0 (env_now e) (env_uuid e)) ∧
       status_of x = 500%Z).
Proof.
  intros Hx. destruct r as [n m| |n d o| |i b|i|].
  - rewrite post_users_eq in *.
    destruct (UserCreate_validate n m) as [x'|user] eqn:Hv.
    { simpl in Hx. injection Hx as <-. repeat split; try done.
      intros n' m' fields _ ->. apply UserCreate_validate_inr in Hv || idtac.
      unfold UserCreate_validate in Hv.
      destruct (1 <=? String.length n)%nat, (simple_email m); discriminate. }
    rewrite (UserOut_validate_created _ _ _ _ Hv) in *.
    pose proof (UserCreate_validate_inr _ _ _ Hv) as (Hn & Hne & Hm).
    destruct (simple_email (uc_email user)) as [msg|?] eqn:Hst; [|done].
    simpl in Hx. injection Hx as <-. split; [|split].
    + intros H. by destruct (H ["email"]).
    + intros H. by destruct (H n m).
    + intros n' m' fields [= <- <-] _. exists (uc_email user).
      split; [done|]. split.
      * unfold simple_email in Hst |- *.
        by destruct (negb (re_match EMAIL_RE (list_ascii_of_string (uc_email user)))).
      * simpl. rewrite lookup_insert_eq. split; [|done].
        unfold user_doc. by rewrite Hn.
  - rewrite get_users_eq in *. simpl. repeat split; try done.
  - rewrite post_items_eq in *. destruct (1 <=? String.length n)%nat.
    + destruct (_mem_users s !! o); [done|]. repeat split; try done.
    + repeat split; try done.
  - rewrite get_items_eq in *. simpl. repeat split; try done.
  - destruct (post_loans_cases i b e s) as [(it & u & _ & _ & _ & _ & Heq)
      |(c & d & _ & Heq)]; rewrite Heq in *; [done|]. repeat split; try done.
  - rewrite post_loans_return_eq in *.
    destruct (_mem_items s !! i); [done|]. repeat split; try done.
  - done.
Qed.

Lemma app_error_store_effect_witness :
  (app (PostUsers "Ana" " @b.c") (ex_env "u-1") empty_store).1
    = inl (ResponseValidationError ["email"]) ∧
  _mem_users (app (PostUsers "Ana" " @b.c") (ex_env "u-1") empty_store).2 !! "u-1"
    = Some (MkUserDoc "Ana" "@b.c" 0 "2024-05-01T10:00:00" "u-1") ∧
  (app (PostLoans "i-drill" "u-bia") (ex_env "l-1") ex_poor).1
    = inl (HTTPException 403 "Pontos insuficientes para pegar emprestado") ∧
  (app (PostLoans "i-drill" "u-bia") (ex_env "l-1") ex_poor).2 = ex_poor.
Proof.
  split; [reflexivity|]. split.
  - destruct (app_error_store_effect (PostUsers "Ana" " @b.c") (ex_env "u-1")
                empty_store (ResponseValidationError ["email"]) eq_refl)
      as (_ & _ & H).
    destruct (H "Ana" " @b.c" ["email"] eq_refl eq_refl) as (stored & Hst & _ & Hu & _).
    vm_compute in Hst. injection Hst as <-. exact Hu.
  - split; [reflexivity|].
    destruct (app_error_store_effect (PostLoans "i-drill" "u-bia") (ex_env "l-1")
                ex_poor _ eq_refl) as (H & _).
    apply H. intros fields Hf. discriminate Hf.
Defined.

(** The exceptions a request can be answered with. The only
    [HTTPException]s are 404, 409 and 403: the two [raise 500] of the
    handlers are never reached. A registration fails in request validation
    or, with 500, in building its response (field [email]); an item
    creation fails in request validation (field [name]) or with 404; a
    borrow fails with 404, 409 or 403; a return fails with 404; a listing
    fails only with 500, in building its response; the health check never
    fails. *)
Theorem app_exceptions (r : Request) (e : Env) (s : Store) (x : Exn) :
  (app r e s).1 = inl x →
  (∀ c d, x = HTTPException c d → c ∈ [404; 409; 403]%Z) ∧
  match r with
  | PostUsers _ _ =>
      (∃ fields, x = ValidationError fields ∧ status_of x = 422%Z) ∨
      (x = ResponseValidationError ["email"] ∧ status_of x = 500%Z)
  | PostItems _ _ _ =>
      x = ValidationError ["name"] ∨ ∃ d, x = HTTPException 404 d
  | PostLoans _ _ => ∃ c d, x = HTTPException c d ∧ c ∈ [404; 409; 403]%Z
  | PostLoansReturn _ => ∃ d, x = HTTPException 404 d
  | GetUsers | GetItems =>
      ∃ fields, x = ResponseValidationError fields ∧ status_of x = 500%Z
  | GetHealth => False
  end.
Proof.
  destruct r as [n m| |n d o| |i b|i|].
  - rewrite post_users_eq.
    destruct (UserCreate_validate n m) as [x'|user] eqn:Hv.
    + unfold UserCreate_validate in Hv. simpl. intros [= <-].
      destruct (1 <=? String.length n)%nat, (simple_email m);
        simplify_eq; (split; [done|]); left; by eexists.
    + rewrite (UserOut_validate_created _ _ _ _ Hv).
      destruct (simple_email (uc_email user)); simpl; intros [= <-].
      split; [done|]. by right.
  - rewrite get_users_eq. simpl.
    destruct (validate_each UserOut_validate _); intros [= <-].
    split; [done|]. by eexists.
  - rewrite post_items_eq. destruct (1 <=? String.length n)%nat.
    + destruct (_mem_users s !! o); simpl; intros [= <-].
      split; [|by eauto]. intros c d' [= <- _]. set_solver.
    + simpl; intros [= <-]. split; by eauto.
  - rewrite get_items_eq. simpl.
    destruct (validate_each ItemOut_validate _); intros [= <-].
    split; [done|]. by eexists.
  - destruct (post_loans_cases i b e s) as [(it & u & _ & _ & _ & _ & ->)
      |(c & d & Hc & ->)]; simpl; intros [= <-].
    split; [|by eauto]. by intros c' d' [= <- _].
  - rewrite post_loans_return_eq.
    destruct (_mem_items s !! i); simpl; intros [= <-].
    split; [|by eauto]. intros c d' [= <- _]. set_solver.
  - done.
Qed.

Lemma app_exceptions_witness :
  (∃ c d, (app (PostLoans "i-drill" "u-ana") (ex_env "l-2") ex_lent).1
            = inl (HTTPException c d) ∧ c ∈ [404; 409; 403]%Z) ∧
  status_of (ResponseValidationError ["email"]) = 500%Z.
Proof.
  split.
  - destruct (app_exceptions (PostLoans "i-drill" "u-ana") (ex_env "l-2") ex_lent
                (HTTPException 409 "Item já está emprestado") eq_refl)
      as [_ (c & d & Hx & Hc)].
    exists c, d. split; [|exact Hc]. rewrite <- Hx. reflexivity.
  - destruct (app_exceptions (PostUsers "Ana" " @b.c") (ex_env "u-1") empty_store
                (ResponseValidationError ["email"]) eq_refl)
      as [_ [(f & Hf & _)|[_ H]]]; [discriminate Hf | exact H].
Defined.

Lemma set_points_id (u : UserDoc) : set_points u (u_points u) = u.
Proof. by destruct u. Qed.

(** ** Point adjustments and availability writes *)

Lemma update_user_points_eq (k : string) (d : Z) (e : Env) (s : Store) :
  update_user_points k d e s =
  match _mem_users s !! k with
  | None => (inr false, s)
  | Some u =>
      (inr true,
       MkStore (<[k := set_points u (u_points u + d)]> (_mem_users s)) (_mem_items s)
         (_mem_loans s) (users_order s) (items_order s))
  end.
Proof.
  unfold update_user_points, users_get, users_put, bind, ret.
  destruct (_mem_users s !! k) eqn:Hk; [|done].
  by rewrite (order_put_Some _ _ _ _ Hk).
Qed.

Lemma set_item_availability_eq (k : string) (b : bool) (e : Env) (s : Store) :
  set_item_availability k b e s =
  match _mem_items s !! k with
  | None => (inr false, s)
  | Some it =>
      (inr true,
       MkStore (_mem_users s) (<[k := set_available it b]> (_mem_items s))
         (_mem_loans s) (users_order s) (items_order s))
  end.
Proof.
  unfold set_item_availability, items_get, items_put, bind, ret.
  destruct (_mem_items s !! k) eqn:Hk; [|done].
  by rewrite (order_put_Some _ _ _ _ Hk).
Qed.

(** [update_user_points] on an unknown id returns [False] and writes
    nothing. On a known id it returns [True] and the stored user then
    holds its former points plus [delta], whatever the sign of the result,
    with name, email, creation time and id as before; no other user, no
    item, no loan and no key order changes. Hence two adjustments in a row
    are one adjustment by the sum, and an adjustment followed by its
    opposite leaves the store as it was. *)
Theorem update_user_points_compose (k : string) (d1 d2 : Z) (e : Env) (s : Store) :
  (_mem_users s !! k = None → update_user_points k d1 e s = (inr false, s)) ∧
  (∀ u, _mem_users s !! k = Some u →
     let r := update_user_points k d1 e s in
     r.1 = inr true ∧
     (∃ u', _mem_users r.2 !! k = Some u' ∧
            u_points u' = (u_points u + d1)%Z ∧
            u_name u' = u_name u ∧ u_email u' = u_email u ∧
            u_created_at u' = u_created_at u ∧ u_id u' = u_id u) ∧
     (∀ j, j ≠ k → _mem_users r.2 !! j = _mem_users s !! j) ∧
     _mem_items r.2 = _mem_items s ∧ _mem_loans r.2 = _mem_loans s ∧
     users_order r.2 = users_order s ∧ items_order r.2 = items_order s) ∧
  (update_user_points k d1 ;;; update_user_points k d2) e s
    = update_user_points k (d1 + d2) e s ∧
  ((update_user_points k d1 ;;; update_user_points k (- d1)) e s).2 = s.
Proof.
  split; [|split; [|split]].
  - intros Hk. by rewrite update_user_points_eq, Hk.
  - intros u Hk. rewrite update_user_points_eq, Hk. simpl.
    split; [done|]. split; [|split; [|done]].
    + eexists. split; [apply lookup_insert_eq | done].
    + intros j Hj. by rewrite lookup_insert_ne.
  - unfold bind. rewrite !update_user_points_eq.
    destruct (_mem_users s !! k) as [u|] eqn:Hu.
    2:{ rewrite !update_user_points_eq, Hu. done. }
    rewrite !update_user_points_eq. simpl.
    rewrite !lookup_insert_eq. simpl. rewrite !insert_insert_eq.
    by rewrite Z.add_assoc.
  - unfold bind. rewrite !update_user_points_eq.
    destruct (_mem_users s !! k) as [u|] eqn:Hu.
    2:{ rewrite !update_user_points_eq, Hu. done. }
    rewrite !update_user_points_eq. simpl.
    rewrite !lookup_insert_eq. simpl. rewrite !insert_insert_eq.
    replace (set_points (set_points u (u_points u + d1)) (u_points u + d1 + - d1))
      with u by (destruct u; unfold set_points; simpl; f_equal; lia).
    rewrite insert_id by done. apply store_eta.
Qed.

Lemma update_user_points_compose_witness :
  _mem_users ex_ready !! "u-ana"
    = Some (MkUserDoc "Ana" "ana@example.org" 10 "2024-05-01T10:00:00" "u-ana") ∧
  ∃ u', _mem_users (update_user_points "u-ana" (-25) (ex_env "x") ex_ready).2 !! "u-ana"
          = Some u' ∧
        u_points u' = (-15)%Z.
Proof.
  split; [reflexivity|].
  destruct (update_user_points_compose "u-ana" (-25) 0 (ex_env "x") ex_ready)
    as (_ & H & _).
  destruct (H (MkUserDoc "Ana" "ana@example.org" 10 "2024-05-01T10:00:00" "u-ana")
              eq_refl) as (_ & (u' & Hu' & Hp & _) & _).
  exists u'. split; [exact Hu'|]. rewrite Hp. reflexivity.
Defined.

(** [set_item_availability] on an unknown id returns [False] and writes
    nothing. On a known id it returns [True] and the stored item then has
    the flag written, with name, description, owner, creation time and id
    as before; nothing else changes. Of two writes in a row the last one
    wins: the stored flag is the second one and the store is what the
    second write alone gives; writing the flag the item already has
    changes nothing. *)
Theorem set_item_availability_last_write
    (k : string) (b1 b2 : bool) (e : Env) (s : Store) :
  (_mem_items s !! k = None → set_item_availability k b1 e s = (inr false, s)) ∧
  (∀ it, _mem_items s !! k = Some it →
     let r := set_item_availability k b1 e s in
     r.1 = inr true ∧
     (∃ it', _mem_items r.2 !! k = Some it' ∧
             i_available it' = b1 ∧
             i_name it' = i_name it ∧ i_description it' = i_description it ∧
             i_owner_id it' = i_owner_id it ∧
             i_created_at it' = i_created_at it ∧ i_id it' = i_id it) ∧
     (∀ j, j ≠ k → _mem_items r.2 !! j = _mem_items s !! j) ∧
     _mem_users r.2 = _mem_users s ∧ _mem_loans r.2 = _mem_loans s ∧
     users_order r.2 = users_order s ∧ items_order r.2 = items_order s) ∧
  (∀ it, _mem_items s !! k = Some it →
     ∃ it', _mem_items
              ((set_item_availability k b1 ;;; set_item_availability k b2) e s).2 !! k
            = Some it' ∧ i_available it' = b2) ∧
  (set_item_availability k b1 ;;; set_item_availability k b2) e s
    = set_item_availability k b2 e s ∧
  (∀ it, _mem_items s !! k = Some it → i_available it = b1 →
         set_item_availability k b1 e s = (inr true, s)).
Proof.
  assert (Hseq : (set_item_availability k b1 ;;; set_item_availability k b2) e s
                 = set_item_availability k b2 e s).
  { unfold bind. rewrite !set_item_availability_eq.
    destruct (_mem_items s !! k) as [it|] eqn:Hit.
    2:{ by rewrite set_item_availability_eq, Hit. }
    rewrite set_item_availability_eq. simpl.
    rewrite lookup_insert_eq. simpl. by rewrite insert_insert_eq. }
  split; [|split; [|split; [|split]]].
  - intros Hk. by rewrite set_item_availability_eq, Hk.
  - intros it Hk. rewrite set_item_availability_eq, Hk. simpl.
    split; [done|]. split; [|split; [|done]].
    + eexists. split; [apply lookup_insert_eq | done].
    + intros j Hj. by rewrite lookup_insert_ne.
  - intros it Hk. rewrite Hseq, set_item_availability_eq, Hk. simpl.
    eexists. split; [apply lookup_insert_eq | done].
  - exact Hseq.
  - intros it Hit <-. rewrite set_item_availability_eq, Hit.
    rewrite set_available_id, insert_id by done. by rewrite store_eta.
Qed.

Lemma set_item_availability_last_write_witness :
  _mem_items ex_ready !! "i-drill"
    = Some (MkItemDoc "drill" None "u-ana" true "2024-05-01T10:00:00" "i-drill") ∧
  (∃ it', _mem_items
            ((set_item_availability "i-drill" true ;;;
              set_item_availability "i-drill" false) (ex_env "x") ex_ready).2
            !! "i-drill" = Some it' ∧
          i_available it' = false) ∧
  set_item_availability "i-drill" true (ex_env "x") ex_ready = (inr true, ex_ready).
Proof.
  split; [reflexivity|].
  destruct (set_item_availability_last_write "i-drill" true false (ex_env "x") ex_ready)
    as (_ & _ & H2 & _ & H4).
  split.
  - exact (H2 _ eq_refl).
  - eapply H4; reflexivity.
Defined.

(** ** Borrow and return, composed *)

(** A successful borrow followed by the return of the item: the return
    succeeds and puts the items dictionary back exactly as it was before
    the borrow, while the borrower stays 5 points down and the loan record
    stays. *)
Theorem borrow_then_return (s : Store) (loan : LoanCreate) (e e' : Env) :
  succeeds (borrow_item loan e s) →
  let s1 := (borrow_item loan e s).2 in
  let r := return_item (lc_item_id loan) e' s1 in
  succeeds r ∧
  _mem_items r.2 = _mem_items s ∧
  _mem_users r.2 = _mem_users s1 ∧
  _mem_loans r.2 = _mem_loans s1 ∧
  _mem_loans s1 !! env_uuid e = Some (loan_doc loan e) ∧
  ∃ b b', _mem_users s !! lc_borrower_id loan = Some b ∧
          _mem_users r.2 !! lc_borrower_id loan = Some b' ∧
          u_points b' = (u_points b - 5)%Z.
Proof.
  intros Hs.
  destruct (borrow_item_outcome loan e s)
    as [(it & b & Hit & Hav & Hb & _ & Heq)|[Hf _]]; [|done].
  rewrite Heq. simpl. rewrite return_item_eq. simpl.
  rewrite lookup_insert_eq. simpl. repeat split.
  - by eexists.
  - rewrite insert_insert_eq.
    replace (set_available (set_available it false) true) with it
      by (destruct it; simpl in *; by subst).
    by apply insert_id.
  - apply lookup_insert_eq.
  - exists b, (set_points b (u_points b - 5)). split; [done|].
    split; [apply lookup_insert_eq | done].
Qed.

Lemma borrow_then_return_witness :
  succeeds (borrow_item (MkLoanCreate "i-drill" "u-bia") (ex_env "l-1") ex_ready) ∧
  _mem_items
    (return_item "i-drill" (ex_env "r-1")
       (borrow_item (MkLoanCreate "i-drill" "u-bia") (ex_env "l-1") ex_ready).2).2
  = _mem_items ex_ready.
Proof.
  assert (Hs : succeeds
            (borrow_item (MkLoanCreate "i-drill" "u-bia") (ex_env "l-1") ex_ready)).
  { eexists. vm_compute. reflexivity. }
  split; [exact Hs|].
  destruct (borrow_then_return ex_ready (MkLoanCreate "i-drill" "u-bia")
              (ex_env "l-1") (ex_env "r-1") Hs) as (_ & H & _).
  exact H.
Defined.

(** Returning is idempotent: a second return of the same item gives the
    same answer and leaves the store as the first return left it. *)
Theorem return_item_idempotent (i : string) (e e' : Env) (s : Store) :
  return_item i e' (return_item i e s).2 = return_item i e s.
Proof.
  rewrite !return_item_eq.
  destruct (_mem_items s !! i) as [it|] eqn:Hit; simpl; [|by rewrite Hit].
  rewrite lookup_insert_eq. simpl. by rewrite insert_insert_eq.
Qed.

Lemma step_keeps_unavailable (s : Store) (x : Request * Env) (i : string) :
  (∃ it, _mem_items s !! i = Some it ∧ i_available it = false) →
  frees_item i x = false →
  ∃ it, _mem_items (step s x) !! i = Some it ∧ i_available it = false.
Proof.
  intros (it & Hit & Hav) Hx.
  destruct (step_cases s x) as
    [(-> & _)|[(n & d & o & e & -> & -> & _)|[(loan & e & it0 & -> & Hs & Hit0 & -> & _)
     |(j & e & it0 & -> & _ & -> & _)]]].
  - eauto.
  - unfold frees_item in Hx. simpl in Hx. apply String.eqb_neq in Hx.
    rewrite lookup_insert_ne by done. eauto.
  - destruct (decide (lc_item_id loan = i)) as [Heq|Hne].
    + destruct (borrow_item_outcome loan e s)
        as [(it1 & _ & Hit1 & Hav1 & _)|[Hf _]]; [|done].
      rewrite Heq in Hit1. congruence.
    + rewrite lookup_insert_ne by done. eauto.
  - unfold frees_item in Hx. simpl in Hx. apply String.eqb_neq in Hx.
    rewrite lookup_insert_ne by done. eauto.
Qed.

(** No double lending: once an item has been borrowed, and as long as no
    request returns it (and no item creation is handed its id), every
    further borrow of it, by anyone, fails with 409. *)
Theorem lent_item_cannot_be_borrowed
    (s : Store) (loan : LoanCreate) (e : Env) (mid : list (Request * Env))
    (loan' : LoanCreate) (e' : Env) :
  succeeds (borrow_item loan e s) →
  forallb (λ re, negb (frees_item (lc_item_id loan) re)) mid = true →
  lc_item_id loan' = lc_item_id loan →
  raises 409 (borrow_item loan' e' (run mid (borrow_item loan e s).2)).
Proof.
  intros Hs Hmid Hi.
  assert (Hun : ∃ it, _mem_items (run mid (borrow_item loan e s).2) !! lc_item_id loan
                        = Some it ∧ i_available it = false).
  { assert (H0 : ∃ it, _mem_items (borrow_item loan e s).2 !! lc_item_id loan
                         = Some it ∧ i_available it = false).
    { destruct (borrow_item_outcome loan e s)
        as [(it & b & _ & _ & _ & _ & ->)|[Hf _]]; [|done].
      simpl. eexists. split; [apply lookup_insert_eq | done]. }
    clear Hs. revert H0 Hmid. generalize (borrow_item loan e s).2.
    induction mid as [|x mid IH]; intros s0 H0 Hmid; [done|].
    simpl in Hmid. apply andb_true_iff in Hmid as [Hx Hmid].
    apply negb_true_iff in Hx. simpl. apply IH; [|done].
    by apply step_keeps_unavailable. }
  destruct Hun as (it & Hit & Hav).
  rewrite borrow_item_eq, Hi, Hit, Hav. by eexists.
Qed.

Lemma lent_item_cannot_be_borrowed_witness :
  succeeds (borrow_item (MkLoanCreate "i-drill" "u-bia") (ex_env "l-1") ex_ready) ∧
  raises 409
    (borrow_item (MkLoanCreate "i-drill" "u-ana") (ex_env "l-2")
       (run [(PostLoansReturn "i-ladder", ex_env "r-1");
             (PostItems "saw" None "u-ana", ex_env "i-saw")]
          (borrow_item (MkLoanCreate "i-drill" "u-bia") (ex_env "l-1") ex_ready).2)).
Proof.
  assert (Hs : succeeds
            (borrow_item (MkLoanCreate "i-drill" "u-bia") (ex_env "l-1") ex_ready)).
  { eexists. vm_compute. reflexivity. }
  split; [exact Hs|].
  apply (lent_item_cannot_be_borrowed ex_ready (MkLoanCreate "i-drill" "u-bia")
           (ex_env "l-1") _ (MkLoanCreate "i-drill" "u-ana") (ex_env "l-2") Hs);
    reflexivity.
Defined.

(** A user straight out of registration holds 0 points and cannot borrow
    anything. *)
Theorem registered_user_cannot_borrow
    (n m : string) (e : Env) (s s' : Store) (u : UserOut) :
  app (PostUsers n m) e s = (inr (RUser u), s') →
  uo_points u = 0%Z ∧
  ∀ (i : string) (e' : Env), ¬ succeeds (borrow_item (MkLoanCreate i (uo_id u)) e' s').
Proof.
  rewrite post_users_eq.
  destruct (UserCreate_validate n m) as [x|user] eqn:Hv; [done|].
  rewrite (UserOut_validate_created _ _ _ _ Hv).
  destruct (simple_email (uc_email user)); [done|].
  intros [= <- <-]. split; [done|]. intros i e' Hs.
  destruct (borrow_item_outcome (MkLoanCreate i (env_uuid e)) e'
              (MkStore (<[env_uuid e := user_doc user e]> (_mem_users s))
                 (_mem_items s) (_mem_loans s)
           (order_put (_mem_users s) (env_uuid e) (users_order s)) (items_order s)))
    as [(it & b & _ & _ & Hb & Hp & _)|[Hf _]]; [|done].
  simpl in Hb. rewrite lookup_insert_eq in Hb. injection Hb as <-.
  simpl in Hp. lia.
Qed.

Lemma registered_user_cannot_borrow_witness :
  ∃ u s', app (PostUsers "Caio" "caio@example.org") (ex_env "u-caio") ex_ready
            = (inr (RUser u), s') ∧
          ¬ succeeds (borrow_item (MkLoanCreate "i-drill" (uo_id u)) (ex_env "l-1") s').
Proof.
  eexists _, _. split; [vm_compute; reflexivity|].
  eapply (registered_user_cannot_borrow "Caio" "caio@example.org" (ex_env "u-caio")
            ex_ready).
  vm_compute. reflexivity.
Defined.

(** Creating an item over the API succeeds exactly when the name is not
    empty and the owner exists; an empty name is refused by validation
    before the owner is looked up, so it gives a validation error even for
    an unknown owner. *)
Theorem post_items_succeeds_iff
    (n : string) (d : option string) (o : string) (e : Env) (s : Store) :
  (succeeds (app (PostItems n d o) e s) ↔ n ≠ "" ∧ is_Some (_mem_users s !! o)) ∧
  (raises_validation (app (PostItems n d o) e s) ↔ n = "") ∧
  (raises 404 (app (PostItems n d o) e s) ↔ n ≠ "" ∧ _mem_users s !! o = None).
Proof.
  rewrite post_items_eq. unfold succeeds, raises_validation, raises.
  destruct n as [|c n]; simpl.
  - split; [|split]; split.
    + intros [? ?]; discriminate.
    + intros [? _]; done.
    + done.
    + intros _. by eexists.
    + intros [? ?]; discriminate.
    + intros [? _]; done.
  - destruct (_mem_users s !! o) as [u|]; simpl; (split; [|split]; split).
    + done.
    + intros _. by eexists.
    + intros [? ?]; discriminate.
    + done.
    + intros [? ?]; discriminate.
    + intros [_ ?]; done.
    + intros [? ?]; discriminate.
    + intros [_ [? ?]]; done.
    + intros [? ?]; discriminate.
    + done.
    + done.
    + intros _. by eexists.
Qed.

(** ** What one request does to the whole store *)

Lemma step_effects (s : Store) (x : Request * Env) :
  step s x = s
  ∨ (∃ n m user e,
       x = (PostUsers n m, e) ∧ UserCreate_validate n m = inr user ∧
       step s x =
         MkStore (<[env_uuid e := user_doc user e]> (_mem_users s)) (_mem_items s)
           (_mem_loans s)
           (order_put (_mem_users s) (env_uuid e) (users_order s)) (items_order s))
  ∨ (∃ n d o e u,
       x = (PostItems n d o, e) ∧ _mem_users s !! o = Some u ∧
       step s x =
         MkStore (<[o := set_points u (u_points u + 10)]> (_mem_users s))
           (<[env_uuid e := item_doc (MkItemCreate n d o) e]> (_mem_items s))
           (_mem_loans s)
           (users_order s) (order_put (_mem_items s) (env_uuid e) (items_order s)))
  ∨ (∃ i b e it u,
       x = (PostLoans i b, e) ∧
       _mem_items s !! i = Some it ∧ i_available it = true ∧
       _mem_users s !! b = Some u ∧ (5 ≤ u_points u)%Z ∧
       step s x =
         MkStore (<[b := set_points u (u_points u - 5)]> (_mem_users s))
           (<[i := set_available it false]> (_mem_items s))
           (<[env_uuid e := loan_doc (MkLoanCreate i b) e]> (_mem_loans s))
           (users_order s) (items_order s))
  ∨ (∃ i e it,
       x = (PostLoansReturn i, e) ∧ _mem_items s !! i = Some it ∧
       step s x =
         MkStore (_mem_users s) (<[i := set_available it true]> (_mem_items s))
           (_mem_loans s)
           (users_order s) (items_order s)).
Proof.
  destruct x as [[n m| |n d o| |i b|i|] e]; unfold step; cbn [fst snd].
  - rewrite post_users_eq.
    destruct (UserCreate_validate n m) as [?|user] eqn:Hv; [by left|].
    right; left. by exists n, m, user, e.
  - left. apply step_get_users.
  - rewrite post_items_eq. destruct (1 <=? String.length n)%nat; [|by left].
    destruct (_mem_users s !! o) as [u|] eqn:Hu; [|by left].
    right; right; left. by exists n, d, o, e, u.
  - left. apply step_get_items.
  - destruct (post_loans_cases i b e s) as [(it & u & ? & ? & ? & ? & ->)
      |(c & d & _ & ->)]; [|by left].
    do 3 right; left. by exists i, b, e, it, u.
  - rewrite post_loans_return_eq.
    destruct (_mem_items s !! i) as [it|] eqn:Hit; [|by left].
    do 4 right. by exists i, e, it.
  - by left.
Qed.

(** ** Nothing is ever deleted *)

Lemma step_keeps_ids (s : Store) (x : Request * Env) :
  dom (_mem_users s) ⊆ dom (_mem_users (step s x)) ∧
  dom (_mem_items s) ⊆ dom (_mem_items (step s x)) ∧
  dom (_mem_loans s) ⊆ dom (_mem_loans (step s x)).
Proof.
  destruct (step_effects s x) as
    [->|[(n & m & user & e & _ & _ & ->)|[(n & d & o & e & u & _ & _ & ->)
     |[(i & b & e & it & u & _ & _ & _ & _ & _ & ->)|(i & e & it & _ & _ & ->)]]]];
    simpl; repeat split; try done; apply dom_insert_subseteq.
Qed.

(** No sequence of requests removes a user, an item or a loan: every id
    stored before the run is still stored after it. *)
Theorem run_keeps_ids (tr : list (Request * Env)) (s : Store) :
  dom (_mem_users s) ⊆ dom (_mem_users (run tr s)) ∧
  dom (_mem_items s) ⊆ dom (_mem_items (run tr s)) ∧
  dom (_mem_loans s) ⊆ dom (_mem_loans (run tr s)).
Proof.
  revert s. induction tr as [|x tr IH]; intros s; [done|].
  simpl. destruct (step_keeps_ids s x) as (Hu & Hi & Hl).
  destruct (IH (step s x)) as (Hu' & Hi' & Hl').
  repeat split; etrans; eauto.
Qed.

(** ** Referential integrity *)

Lemma step_store_wf (s : Store) (x : Request * Env) :
  store_wf s → store_wf (step s x).
Proof.
  intros (Hu & Hi & Hl).
  assert (Hmono : ∀ k j (v : UserDoc),
            is_Some (_mem_users s !! k) → is_Some (<[j := v]> (_mem_users s) !! k)).
  { intros k j v Hk. apply lookup_insert_is_Some'. by right. }
  assert (Hmono' : ∀ k j (v : ItemDoc),
            is_Some (_mem_items s !! k) → is_Some (<[j := v]> (_mem_items s) !! k)).
  { intros k j v Hk. apply lookup_insert_is_Some'. by right. }
  destruct (step_effects s x) as
    [->|[(n & m & user & e & _ & _ & ->)|[(n & d & o & e & u & _ & Ho & ->)
     |[(i & b & e & it & u & _ & Hit & _ & Hb & _ & ->)|(i & e & it & _ & Hit & ->)]]]];
    [done|..]; (split; [|split]); simpl.
  - intros k u Hk. apply lookup_insert_Some in Hk as [[<- <-]|[_ Hk]]; [done|eauto].
  - intros k it Hk. destruct (Hi k it Hk). eauto.
  - intros k l Hk. destruct (Hl k l Hk) as (? & ? & ?). eauto.
  - intros k u' Hk. apply lookup_insert_Some in Hk as [[<- <-]|[_ Hk]]; [|eauto].
    simpl. eauto.
  - intros k it Hk. apply lookup_insert_Some in Hk as [[<- <-]|[_ Hk]].
    + simpl. split; [done|]. apply lookup_insert_is_Some'. by left.
    + destruct (Hi k it Hk). eauto.
  - intros k l Hk. destruct (Hl k l Hk) as (? & ? & ?).
    split; [done|]. split; [|eauto]. apply lookup_insert_is_Some'. by right.
  - intros k u' Hk. apply lookup_insert_Some in Hk as [[<- <-]|[_ Hk]]; [|eauto].
    simpl. eauto.
  - intros k it' Hk. apply lookup_insert_Some in Hk as [[<- <-]|[_ Hk]].
    + simpl. destruct (Hi i it Hit). eauto.
    + destruct (Hi k it' Hk). eauto.
  - intros k l Hk. apply lookup_insert_Some in Hk as [[<- <-]|[_ Hk]].
    + simpl. split; [done|]. split; apply lookup_insert_is_Some'; by left.
    + destruct (Hl k l Hk) as (? & ? & ?). eauto.
  - eauto.
  - intros k it' Hk. apply lookup_insert_Some in Hk as [[<- <-]|[_ Hk]].
    + simpl. destruct (Hi i it Hit). eauto.
    + destruct (Hi k it' Hk). eauto.
  - intros k l Hk. destruct (Hl k l Hk) as (? & ? & ?). eauto.
Qed.

(** In every store reachable from the empty one, every document is stored
    under its own id, every item's owner is a stored user, and every
    loan's item and borrower are stored; this holds whatever ids the
    generator hands out. *)
Theorem reachable_store_wf (s : Store) : reachable s → store_wf s.
Proof.
  intros [tr ->]. induction tr as [|x tr IH] using rev_ind.
  - unfold store_wf. cbn.
    split; [|split]; intros k v Hk; by rewrite lookup_empty in Hk.
  - rewrite run_snoc. by apply step_store_wf.
Qed.

Lemma reachable_store_wf_witness :
  reachable ex_lent ∧
  ∀ k l, _mem_loans ex_lent !! k = Some l →
         l_id l = k ∧ is_Some (_mem_items ex_lent !! l_item_id l) ∧
         is_Some (_mem_users ex_lent !! l_borrower_id l).
Proof.
  assert (Hr : reachable ex_lent).
  { exists ex_run_lent. unfold ex_lent, ex_ready, ex_run_lent. by rewrite run_app. }
  split; [exact Hr|].
  destruct (reachable_store_wf ex_lent Hr) as (_ & _ & H). exact H.
Defined.

(** ** Listings *)

Lemma elem_of_dict_items {V} (m : gmap string V) (o : list string) (k : string) (v : V) :
  (k, v) ∈ dict_items m o ↔ k ∈ o ∧ m !! k = Some v.
Proof.
  unfold dict_items. rewrite list_elem_of_omap. split.
  - intros (k' & Hin & Hf). destruct (m !! k') as [v'|] eqn:Hk; [|done].
    simpl in Hf. by simplify_eq.
  - intros [Hin Hk]. exists k. split; [done|]. by rewrite Hk.
Qed.

Lemma dict_items_fst {V} (m : gmap string V) (o : list string) :
  (∀ k, k ∈ o → is_Some (m !! k)) → (dict_items m o).*1 = o.
Proof.
  induction o as [|k o IH]; intros Hall; [done|].
  unfold dict_items. simpl. destruct (Hall k) as [v Hk]; [by left|].
  rewrite Hk. simpl. f_equal. apply IH. intros j Hj. apply Hall. by right.
Qed.

Lemma dict_items_insert_notin {V} (m : gmap string V) (o : list string) (k : string) (v : V) :
  k ∉ o → dict_items (<[k := v]> m) o = dict_items m o.
Proof.
  induction o as [|j o IH]; intros Hk; [done|].
  apply not_elem_of_cons in Hk as [Hne Hk]. specialize (IH Hk).
  unfold dict_items in *. simpl. rewrite lookup_insert_ne by done.
  destruct (m !! j); simpl; [f_equal|]; exact IH.
Qed.

Lemma dict_items_snoc {V} (m : gmap string V) (o : list string) (k : string) (v : V) :
  k ∉ o → dict_items (<[k := v]> m) (o ++ [k]) = (dict_items m o ++ [(k, v)])%list.
Proof.
  intros Hk. unfold dict_items. rewrite omap_app. simpl.
  rewrite lookup_insert_eq. simpl. f_equal.
  exact (dict_items_insert_notin m o k v Hk).
Qed.

Lemma order_length_size {V} (m : gmap string V) (o : list string) :
  NoDup o → (∀ k, k ∈ o ↔ is_Some (m !! k)) → length o = size m.
Proof.
  intros Hnd Hiff. rewrite <- (size_dom (D := gset string) m).
  unfold size at 1, set_size. simpl.
  apply Permutation_length, NoDup_Permutation; [done | apply NoDup_elements|].
  intros k. by rewrite Hiff, elem_of_elements, elem_of_dom.
Qed.

Lemma user_out_ids (l : list (string * UserDoc)) :
  uo_id <$> ((λ kv, user_out kv.1 kv.2) <$> l) = l.*1.
Proof. induction l as [|[k v] l IH]; simpl; [done | by f_equal]. Qed.

Lemma item_out_ids (l : list (string * ItemDoc)) :
  io_id <$> ((λ kv, item_out kv.1 kv.2) <$> l) = l.*1.
Proof. induction l as [|[k v] l IH]; simpl; [done | by f_equal]. Qed.

Lemma validate_each_snoc {A} (v : A → list string + A) (l l' : list A) (a a' : A) :
  validate_each v l = inr l' → v a = inr a' →
  validate_each v (l ++ [a]) = inr (l' ++ [a'])%list.
Proof.
  revert l'. induction l as [|b l IH]; intros l' Hl Ha; simpl in *.
  - injection Hl as <-. by rewrite Ha.
  - destruct (v b) as [?|b'], (validate_each v l) as [?|l''] eqn:Hv; try done.
    injection Hl as <-. by rewrite (IH l'' eq_refl Ha).
Qed.

Lemma order_keep_ok {V} (m : gmap string V) (o : list string) (k : string) (v0 v : V) :
  m !! k = Some v0 →
  (∀ j, j ∈ o ↔ is_Some (m !! j)) →
  ∀ j, j ∈ o ↔ is_Some (<[k := v]> m !! j).
Proof.
  intros Hk Hiff j. rewrite lookup_insert_is_Some', Hiff.
  split; [by right|]. intros [<-|?]; [by rewrite Hk | done].
Qed.

Lemma order_put_ok {V} (m : gmap string V) (o : list string) (k : string) (v : V) :
  NoDup o →
  (∀ j, j ∈ o ↔ is_Some (m !! j)) →
  NoDup (order_put m k o) ∧
  ∀ j, j ∈ order_put m k o ↔ is_Some (<[k := v]> m !! j).
Proof.
  intros Hnd Hiff. unfold order_put. destruct (m !! k) as [v0|] eqn:Hk.
  - split; [done|]. by eapply order_keep_ok.
  - split.
    + apply NoDup_app. split; [done|]. split; [|apply NoDup_singleton].
      intros j Hj Hjk. apply list_elem_of_singleton in Hjk as ->.
      apply Hiff in Hj. rewrite Hk in Hj. by destruct Hj.
    + intros j. rewrite elem_of_app, list_elem_of_singleton, Hiff.
      rewrite lookup_insert_is_Some'. split.
      * intros [?|Heq]; [by right | left; by symmetry].
      * intros [Heq|?]; [right; by symmetry | by left].
Qed.

Lemma step_order_ok (s : Store) (x : Request * Env) :
  order_ok s → order_ok (step s x).
Proof.
  intros (Hun & Hu & Hin & Hi).
  destruct (step_effects s x) as
    [->|[(n & m & user & e & _ & _ & ->)|[(n & d & o & e & u & _ & Ho & ->)
     |[(i & b & e & it & u & _ & Hit & _ & Hb & _ & ->)|(i & e & it & _ & Hit & ->)]]]];
    [done|..]; unfold order_ok; simpl.
  - destruct (order_put_ok (_mem_users s) (users_order s) (env_uuid e)
                (user_doc user e) Hun Hu) as [? ?]. done.
  - destruct (order_put_ok (_mem_items s) (items_order s) (env_uuid e)
                (item_doc (MkItemCreate n d o) e) Hin Hi) as [? ?].
    split; [done|]. split; [|done]. by eapply order_keep_ok.
  - split; [done|]. split; [by eapply order_keep_ok|].
    split; [done|]. by eapply order_keep_ok.
  - split; [done|]. split; [done|]. split; [done|]. by eapply order_keep_ok.
Qed.

Lemma run_order_ok (tr : list (Request * Env)) (s : Store) :
  order_ok s → order_ok (run tr s).
Proof.
  revert s. induction tr as [|x tr IH]; intros s Hs; [done|].
  simpl. apply IH. by apply step_order_ok.
Qed.

Lemma reachable_order_ok (s : Store) : reachable s → order_ok s.
Proof.
  intros [tr ->]. apply run_order_ok. unfold order_ok. cbn.
  repeat split; try apply NoDup_nil_2; try (by intros ?%elem_of_nil);
    rewrite lookup_empty; by intros [? ?].
Qed.

(** In a reachable store the two listings return one entry per stored
    document, with pairwise distinct ids: every entry of the users listing
    shows the name, email and points stored under its id, every entry of
    the items listing the name, description, owner and availability stored
    under its id, and every stored id has its entry. The storage functions
    never fail and write nothing. *)
Theorem listings_spec (e : Env) (s : Store) :
  reachable s →
  (∃ us, list_users_store e s = (inr us, s) ∧
         length us = size (_mem_users s) ∧
         NoDup (uo_id <$> us) ∧
         (∀ uo, uo ∈ us →
            ∃ v, _mem_users s !! uo_id uo = Some v ∧
                 uo_name uo = u_name v ∧ uo_email uo = u_email v ∧
                 uo_points uo = u_points v) ∧
         (∀ k v, _mem_users s !! k = Some v → ∃ uo, uo ∈ us ∧ uo_id uo = k)) ∧
  (∃ its, list_items_store e s = (inr its, s) ∧
          length its = size (_mem_items s) ∧
          NoDup (io_id <$> its) ∧
          (∀ io, io ∈ its →
             ∃ v, _mem_items s !! io_id io = Some v ∧
                  io_name io = i_name v ∧ io_description io = i_description v ∧
                  io_owner_id io = i_owner_id v ∧
                  io_available io = i_available v) ∧
          (∀ k v, _mem_items s !! k = Some v → ∃ io, io ∈ its ∧ io_id io = k)).
Proof.
  intros Hr. destruct (reachable_order_ok s Hr) as (Hun & Hu & Hin & Hi). split.
  - eexists. split; [reflexivity|].
    assert (Hfst : (dict_items (_mem_users s) (users_order s)).*1 = users_order s).
    { apply dict_items_fst. intros k Hk. by apply Hu. }
    split; [|split; [|split]].
    + rewrite length_fmap, <- (length_fmap fst), Hfst. by apply order_length_size.
    + by rewrite user_out_ids, Hfst.
    + intros uo ([k v] & -> & Hkv)%list_elem_of_fmap.
      apply elem_of_dict_items in Hkv as [_ Hk]. exists v. done.
    + intros k v Hk. exists (user_out k v). split; [|done].
      apply list_elem_of_fmap. exists (k, v). split; [done|].
      apply elem_of_dict_items. split; [|done]. apply Hu. eauto.
  - eexists. split; [reflexivity|].
    assert (Hfst : (dict_items (_mem_items s) (items_order s)).*1 = items_order s).
    { apply dict_items_fst. intros k Hk. by apply Hi. }
    split; [|split; [|split]].
    + rewrite length_fmap, <- (length_fmap fst), Hfst. by apply order_length_size.
    + by rewrite item_out_ids, Hfst.
    + intros io ([k v] & -> & Hkv)%list_elem_of_fmap.
      apply elem_of_dict_items in Hkv as [_ Hk]. exists v. done.
    + intros k v Hk. exists (item_out k v). split; [|done].
      apply list_elem_of_fmap. exists (k, v). split; [done|].
      apply elem_of_dict_items. split; [|done]. apply Hi. eauto.
Qed.

(** ** The ledger *)

Lemma total_points_insert_None (m : gmap string UserDoc) (k : string) (u : UserDoc) :
  m !! k = None →
  total_points (<[k := u]> m) = (u_points u + total_points m)%Z.
Proof.
  intros Hk. unfold total_points.
  rewrite map_fold_insert_L; [done| |done].
  intros. lia.
Qed.

Lemma total_points_insert_Some (m : gmap string UserDoc) (k : string) (u0 u : UserDoc) :
  m !! k = Some u0 →
  total_points (<[k := u]> m) = (total_points m - u_points u0 + u_points u)%Z.
Proof.
  intros Hk.
  rewrite <- (insert_delete_id m k u0 Hk) at 2.
  rewrite <- (insert_delete_eq m k u).
  rewrite !total_points_insert_None by apply lookup_delete_eq. lia.
Qed.

Lemma step_ledger_balance (s : Store) (x : Request * Env) :
  uuid_new s x = true → ledger_balance (step s x) = ledger_balance s.
Proof.
  intros Hnew. unfold ledger_balance.
  destruct (step_effects s x) as
    [->|[(n & m & user & e & -> & _ & ->)|[(n & d & o & e & u & -> & Ho & ->)
     |[(i & b & e & it & u & -> & Hit & _ & Hb & _ & ->)|(i & e & it & -> & Hit & ->)]]]];
    [done|..]; unfold uuid_new in Hnew; simpl in *.
  - destruct (_mem_users s !! env_uuid e) eqn:Hk; [done|].
    rewrite total_points_insert_None by done. simpl. lia.
  - destruct (_mem_items s !! env_uuid e) eqn:Hk; [done|].
    rewrite (total_points_insert_Some _ _ u) by done.
    rewrite map_size_insert_None by done. simpl. lia.
  - destruct (_mem_loans s !! env_uuid e) eqn:Hk; [done|].
    rewrite (total_points_insert_Some _ _ u) by done.
    rewrite (map_size_insert_Some _ _ (_mem_items s)) by eauto.
    rewrite map_size_insert_None by done. simpl. lia.
  - rewrite (map_size_insert_Some _ _ (_mem_items s)) by eauto. done.
Qed.

(** With ids that are new each time, every request keeps the balance
    "points of all users - 10 per stored item + 5 per stored loan"; so in
    every store reached from the empty one the users together hold
    exactly 10 points per item ever created less 5 per loan ever made. *)
Theorem ledger_balance_conserved (tr : list (Request * Env)) (s : Store) :
  uuids_new tr s = true →
  ledger_balance (run tr s) = ledger_balance s ∧
  (s = empty_store →
   total_points (_mem_users (run tr s))
   = (10 * Z.of_nat (size (_mem_items (run tr s)))
      - 5 * Z.of_nat (size (_mem_loans (run tr s))))%Z).
Proof.
  intros Hnew.
  assert (Hb : ledger_balance (run tr s) = ledger_balance s).
  { revert s Hnew. induction tr as [|x tr IH]; intros s Hnew; [done|].
    simpl in Hnew. apply andb_true_iff in Hnew as [Hx Htr].
    simpl. rewrite (IH _ Htr). by apply step_ledger_balance. }
  split; [exact Hb|]. intros ->.
  unfold ledger_balance in Hb. cbn in Hb.
  change (total_points ∅) with 0%Z in Hb.
  rewrite !map_size_empty in Hb. lia.
Qed.

Lemma ledger_balance_conserved_witness :
  uuids_new ex_run_returned empty_store = true ∧
  total_points (_mem_users (run ex_run_returned empty_store)) = 15%Z ∧
  size (_mem_items (run ex_run_returned empty_store)) = 2%nat ∧
  size (_mem_loans (run ex_run_returned empty_store)) = 1%nat.
Proof.
  split; [reflexivity|].
  destruct (ledger_balance_conserved ex_run_returned empty_store eq_refl) as [_ H].
  split; [|split; reflexivity].
  rewrite (H eq_refl). reflexivity.
Defined.

(** ** More on the email validator *)

Lemma list_ascii_of_string_app (v w : string) :
  list_ascii_of_string (v ++ w) =
  (list_ascii_of_string v ++ list_ascii_of_string w)%list.
Proof. induction v as [|c v IH]; simpl; [done | by rewrite IH]. Qed.

(** The pattern is anchored at the start only: whatever is appended to an
    accepted email, the result is accepted too. *)
Theorem simple_email_accepts_extension (v stored w : string) :
  simple_email v = inr stored →
  ∃ stored', simple_email (v ++ w) = inr stored'.
Proof.
  intros Hv. apply simple_email_accepts_iff.
  destruct (proj1 (simple_email_accepts_iff v)) as (l & d & t & rest & Heq & H);
    [by eauto|].
  exists l, d, t, (rest ++ list_ascii_of_string w)%list. split; [|done].
  rewrite list_ascii_of_string_app, Heq.
  repeat (rewrite <- ?app_assoc; simpl; f_equal).
Qed.

Lemma simple_email_accepts_extension_witness :
  simple_email "ana@example.org" = inr "ana@example.org" ∧
  ∃ stored', simple_email ("ana@example.org" ++ "@elsewhere") = inr stored'.
Proof.
  split; [reflexivity|].
  exact (simple_email_accepts_extension "ana@example.org" "ana@example.org"
           "@elsewhere" eq_refl).
Defined.

(** Normalising an email twice is normalising it once, and lower-casing
    and trimming can be done in either order. *)
Theorem email_normalisation_idempotent (v : string) :
  py_strip (py_lower (py_strip (py_lower v))) = py_strip (py_lower v) ∧
  py_lower (py_strip v) = py_strip (py_lower v).
Proof.
  unfold py_strip, py_lower. rewrite !list_ascii_of_string_of_list_ascii.
  assert (Hc : ∀ l, rstrip_chars (lstrip_chars (map py_lower_char l))
                    = map py_lower_char (rstrip_chars (lstrip_chars l))).
  { intros l. by rewrite lstrip_chars_map_lower, rstrip_chars_map_lower. }
  split.
  - f_equal. rewrite (Hc (list_ascii_of_string v)), map_map.
    rewrite (map_ext _ py_lower_char) by (intros; apply py_lower_char_idem).
    by rewrite Hc, strip_chars_idem.
  - f_equal. by rewrite Hc.
Qed.

(** ** What a run can change in a stored document *)

Lemma step_keeps_documents (s : Store) (x : Request * Env) :
  uuid_new s x = true →
  (∀ k u, _mem_users s !! k = Some u →
          ∃ p, _mem_users (step s x) !! k = Some (set_points u p)) ∧
  (∀ k it, _mem_items s !! k = Some it →
           ∃ b, _mem_items (step s x) !! k = Some (set_available it b)) ∧
  (∀ k l, _mem_loans s !! k = Some l → _mem_loans (step s x) !! k = Some l).
Proof.
  intros Hnew.
  assert (Hu0 : ∀ k u, _mem_users s !! k = Some u →
                       ∃ p, _mem_users s !! k = Some (set_points u p)).
  { intros k u Hk. exists (u_points u). by rewrite set_points_id. }
  assert (Hi0 : ∀ k it, _mem_items s !! k = Some it →
                        ∃ b, _mem_items s !! k = Some (set_available it b)).
  { intros k it Hk. exists (i_available it). by rewrite set_available_id. }
  destruct (step_effects s x) as
    [->|[(n & m & user & e & -> & _ & ->)|[(n & d & o & e & u & -> & Ho & ->)
     |[(i & b & e & it & u & -> & Hit & _ & Hb & _ & ->)|(i & e & it & -> & Hit & ->)]]]];
    [done|..]; unfold uuid_new in Hnew; simpl in *; (split; [|split]); try done.
  - intros k u Hk. destruct (_mem_users s !! env_uuid e) eqn:Hn; [done|].
    rewrite lookup_insert_ne by congruence. eauto.
  - intros k u' Hk. destruct (decide (o = k)) as [<-|Hne].
    + rewrite lookup_insert_eq. simplify_eq. eauto.
    + rewrite lookup_insert_ne by done. eauto.
  - intros k it Hk. destruct (_mem_items s !! env_uuid e) eqn:Hn; [done|].
    rewrite lookup_insert_ne by congruence. eauto.
  - intros k u' Hk. destruct (decide (b = k)) as [<-|Hne].
    + rewrite lookup_insert_eq. simplify_eq. eauto.
    + rewrite lookup_insert_ne by done. eauto.
  - intros k it' Hk. destruct (decide (i = k)) as [<-|Hne].
    + rewrite lookup_insert_eq. simplify_eq. eauto.
    + rewrite lookup_insert_ne by done. eauto.
  - intros k l Hk. destruct (_mem_loans s !! env_uuid e) eqn:Hn; [done|].
    rewrite lookup_insert_ne by congruence. done.
  - intros k it' Hk. destruct (decide (i = k)) as [<-|Hne].
    + rewrite lookup_insert_eq. simplify_eq. eauto.
    + rewrite lookup_insert_ne by done. eauto.
Qed.

(** With ids that are new each time, a run changes nothing of a stored
    document but a user's points and an item's availability: a user keeps
    name, email, creation time and id; an item keeps name, description,
    owner, creation time and id; a loan record never changes. *)
Theorem run_keeps_documents (tr : list (Request * Env)) (s : Store) :
  uuids_new tr s = true →
  (∀ k u, _mem_users s !! k = Some u →
          ∃ p, _mem_users (run tr s) !! k = Some (set_points u p)) ∧
  (∀ k it, _mem_items s !! k = Some it →
           ∃ b, _mem_items (run tr s) !! k = Some (set_available it b)) ∧
  (∀ k l, _mem_loans s !! k = Some l → _mem_loans (run tr s) !! k = Some l).
Proof.
  revert s. induction tr as [|x tr IH]; intros s Hnew.
  - simpl. repeat split; try done.
    + intros k u Hk. exists (u_points u). by rewrite set_points_id.
    + intros k it Hk. exists (i_available it). by rewrite set_available_id.
  - simpl in Hnew. apply andb_true_iff in Hnew as [Hx Htr].
    destruct (step_keeps_documents s x Hx) as (Hu & Hi & Hl).
    destruct (IH (step s x) Htr) as (Hu' & Hi' & Hl').
    simpl. split; [|split].
    + intros k u Hk. destruct (Hu k u Hk) as [p1 H1].
      destruct (Hu' _ _ H1) as [p H2]. by exists p.
    + intros k it Hk. destruct (Hi k it Hk) as [b1 H1].
      destruct (Hi' _ _ H1) as [b H2]. by exists b.
    + intros k l Hk. eauto.
Qed.

Lemma run_keeps_documents_witness :
  uuids_new [(PostLoans "i-drill" "u-bia", ex_env "l-1");
             (PostItems "saw" None "u-bia", ex_env "i-saw")] ex_ready = true ∧
  ∃ b, _mem_items
         (run [(PostLoans "i-drill" "u-bia", ex_env "l-1");
               (PostItems "saw" None "u-bia", ex_env "i-saw")] ex_ready) !! "i-drill"
       = Some (set_available
                 (MkItemDoc "drill" None "u-ana" true "2024-05-01T10:00:00" "i-drill") b).
Proof.
  split; [reflexivity|].
  destruct (run_keeps_documents
              [(PostLoans "i-drill" "u-bia", ex_env "l-1");
               (PostItems "saw" None "u-bia", ex_env "i-saw")] ex_ready eq_refl)
    as (_ & H & _).
  apply H. reflexivity.
Defined.

(** ** How many loans the points allow *)

Lemma total_points_nonneg (m : gmap string UserDoc) :
  map_Forall (λ _ u, (0 ≤ u_points u)%Z) m → (0 ≤ total_points m)%Z.
Proof.
  induction m as [|k u m Hk _ IH] using map_first_key_ind; intros Hall.
  - done.
  - rewrite total_points_insert_None by done.
    apply map_Forall_insert in Hall as [Hu Hm]; [|done].
    specialize (IH Hm). lia.
Qed.

Lemma run_points_ok (tr : list (Request * Env)) (s : Store) :
  points_ok s → points_ok (run tr s).
Proof.
  revert s. induction tr as [|x tr IH]; intros s Hs; [done|].
  simpl. apply IH. by apply step_points_ok.
Qed.

Lemma run_ledger_balance (tr : list (Request * Env)) (s : Store) :
  uuids_new tr s = true → ledger_balance (run tr s) = ledger_balance s.
Proof.
  revert s. induction tr as [|x tr IH]; intros s Hnew; [done|].
  simpl in Hnew. apply andb_true_iff in Hnew as [Hx Htr].
  simpl. rewrite (IH _ Htr). by apply step_ledger_balance.
Qed.

(** Points bound lending: in every store reached from the empty one with
    ids that are new each time, there are at most two loans per item ever
    created. *)
Theorem loans_bounded_by_items (tr : list (Request * Env)) :
  uuids_new tr empty_store = true →
  (size (_mem_loans (run tr empty_store))
   ≤ 2 * size (_mem_items (run tr empty_store)))%nat.
Proof.
  intros Hnew.
  pose proof (run_ledger_balance tr empty_store Hnew) as Hb.
  assert (Hp : points_ok (run tr empty_store)).
  { apply run_points_ok. apply map_Forall_empty. }
  apply total_points_nonneg in Hp.
  unfold ledger_balance in Hb. cbn in Hb.
  change (total_points ∅) with 0%Z in Hb.
  rewrite !map_size_empty in Hb. lia.
Qed.

Lemma loans_bounded_by_items_witness :
  uuids_new ex_run_returned empty_store = true ∧
  (size (_mem_loans (run ex_run_returned empty_store))
   ≤ 2 * size (_mem_items (run ex_run_returned empty_store)))%nat.
Proof.
  split; [reflexivity|].
  exact (loans_bounded_by_items ex_run_returned eq_refl).
Defined.

Lemma listings_spec_witness :
  reachable ex_lent ∧
  ∃ its, list_items_store (ex_env "x") ex_lent = (inr its, ex_lent) ∧
         length its = 2%nat ∧
         ∀ io, io ∈ its →
               ∃ v, _mem_items ex_lent !! io_id io = Some v ∧
                    io_available io = i_available v.
Proof.
  assert (Hr : reachable ex_lent).
  { exists ex_run_lent. unfold ex_lent, ex_ready, ex_run_lent. by rewrite run_app. }
  split; [exact Hr|].
  destruct (listings_spec (ex_env "x") ex_lent Hr)
    as [_ (its & Heq & Hlen & _ & Hin & _)].
  exists its. split; [exact Heq|]. split; [rewrite Hlen; reflexivity|].
  intros io Hio. destruct (Hin io Hio) as (v & Hv & _ & _ & _ & Hav).
  exists v. split; [exact Hv | exact Hav].
Defined.

(** ** Creations and the listings *)

(** The listings follow the order of creation. In a reachable store where
    GET /users/ answers a list, a successful registration under a new id
    makes the next GET /users/ answer that list followed by the user just
    returned; likewise a successful item creation under a new id and
    GET /items/, the new item being shown available. *)
Theorem created_is_listed_last (e e0 e' : Env) (s s' : Store) :
  reachable s →
  (∀ n m u us,
     app GetUsers e0 s = (inr (RUsers us), s) →
     _mem_users s !! env_uuid e = None →
     app (PostUsers n m) e s = (inr (RUser u), s') →
     app GetUsers e' s' = (inr (RUsers (us ++ [u])), s')) ∧
  (∀ n d o i its,
     app GetItems e0 s = (inr (RItems its), s) →
     _mem_items s !! env_uuid e = None →
     app (PostItems n d o) e s = (inr (RItem i), s') →
     app GetItems e' s' = (inr (RItems (its ++ [i])), s') ∧
     io_available i = true).
Proof.
  intros Hr. destruct (reachable_order_ok s Hr) as (Hun & Hu & Hin & Hi). split.
  - intros n m u us Hget Hnew. rewrite post_users_eq.
    destruct (UserCreate_validate n m) as [?|user] eqn:Hv; [done|].
    destruct (UserOut_validate (user_out (env_uuid e) (user_doc user e)))
      as [?|u'] eqn:Hout; [done|].
    intros [= <- <-]. rewrite get_users_eq in *. simpl.
    rewrite (order_put_None _ _ _ Hnew), dict_items_snoc.
    2:{ intros Hk. apply Hu in Hk. rewrite Hnew in Hk. by destruct Hk. }
    rewrite fmap_app. simpl.
    destruct (validate_each UserOut_validate
                ((λ kv, user_out kv.1 kv.2)
                   <$> dict_items (_mem_users s) (users_order s)))
      as [?|us'] eqn:Hus; [done|].
    injection Hget as <-.
    by rewrite (validate_each_snoc _ _ _ _ _ Hus Hout).
  - intros n d o i its Hget Hnew. rewrite post_items_eq.
    destruct (1 <=? String.length n)%nat eqn:Hn; [|done].
    destruct (_mem_users s !! o) as [u|] eqn:Ho; [|done].
    intros [= <- <-]. split; [|done]. rewrite get_items_eq in *. simpl.
    rewrite (order_put_None _ _ _ Hnew), dict_items_snoc.
    2:{ intros Hk. apply Hi in Hk. rewrite Hnew in Hk. by destruct Hk. }
    rewrite fmap_app. simpl.
    destruct (validate_each ItemOut_validate
                ((λ kv, item_out kv.1 kv.2)
                   <$> dict_items (_mem_items s) (items_order s)))
      as [?|its'] eqn:Hits; [done|].
    injection Hget as <-.
    rewrite (validate_each_snoc _ _ _ _
               (item_out (env_uuid e) (item_doc (MkItemCreate n d o) e)) Hits); [done|].
    unfold ItemOut_validate, item_out, item_doc. cbn [io_name i_name ic_name].
    by rewrite Hn.
Qed.

Lemma created_is_listed_last_witness :
  reachable ex_ready ∧
  ∃ us u s',
    app GetUsers (ex_env "x") ex_ready = (inr (RUsers us), ex_ready) ∧
    length us = 2%nat ∧
    app (PostUsers "Caio" " Caio@Example.org") (ex_env "u-caio") ex_ready
      = (inr (RUser u), s') ∧
    app GetUsers (ex_env "y") s' = (inr (RUsers (us ++ [u])), s').
Proof.
  assert (Hr : reachable ex_ready) by (by exists ex_setup).
  split; [exact Hr|].
  destruct (created_is_listed_last (ex_env "u-caio") (ex_env "x") (ex_env "y") ex_ready
              (app (PostUsers "Caio" " Caio@Example.org") (ex_env "u-caio") ex_ready).2
              Hr) as [H _].
  eexists _, _, _. split; [vm_compute; reflexivity|]. split; [reflexivity|].
  split; [vm_compute; reflexivity|].
  apply (H "Caio" " Caio@Example.org"); vm_compute; reflexivity.
Defined.

(** ** Registrations that are answered 500 *)

(** The three outcomes of a registration, exactly. It is refused (422)
    when the name is empty or the validator rejects the email. Otherwise
    the user is stored, and the request succeeds when the validator accepts
    the normalised email as well, and is answered 500 when it does not (as
    for an email whose part before the ["@"] is only white space). *)
Theorem post_users_outcome (n m : string) (e : Env) (s : Store) :
  let r := app (PostUsers n m) e s in
  (succeeds r ↔
     n ≠ "" ∧ ∃ st, simple_email m = inr st ∧ simple_email st = inr st) ∧
  ((∃ fields, r.1 = inl (ResponseValidationError fields)) ↔
     n ≠ "" ∧ ∃ st, simple_email m = inr st ∧
                    simple_email st = inl "email inválido") ∧
  (raises_validation r ↔ n = "" ∨ simple_email m = inl "email inválido").
Proof.
  assert (Hinl : ∀ v msg, simple_email v = inl msg → msg = "email inválido").
  { intros v msg. unfold simple_email.
    destruct (negb (re_match EMAIL_RE (list_ascii_of_string v))); by intros [= <-]. }
  intros r. subst r. rewrite post_users_eq. unfold succeeds, raises_validation.
  destruct (UserCreate_validate n m) as [x|user] eqn:Hv.
  - assert (Hx : (∃ f, x = ValidationError f) ∧
                 (n = "" ∨ simple_email m = inl "email inválido")).
    { unfold UserCreate_validate in Hv.
      destruct n as [|c n]; simpl in Hv;
        destruct (simple_email m) as [msg|st] eqn:Hm; simplify_eq;
        try (apply Hinl in Hm as ->); split; eauto. }
    destruct Hx as [[f ->] Hcause]. simpl. split; [|split]; split.
    + intros [? ?]; discriminate.
    + intros [Hne (st & Hm & _)]. destruct Hcause; [done | congruence].
    + intros [? ?]; discriminate.
    + intros [Hne (st & Hm & _)]. destruct Hcause; [done | congruence].
    + done.
    + intros _. by eexists.
  - rewrite (UserOut_validate_created _ _ _ _ Hv).
    apply UserCreate_validate_inr in Hv as (Hn & Hne & Hm). rewrite Hm.
    destruct (simple_email (uc_email user)) as [msg|st'] eqn:Hst; simpl.
    + apply Hinl in Hst as Hmsg. subst msg. split; [|split]; split.
      * intros [? ?]; discriminate.
      * intros [_ (st & [= <-] & Hst')]. congruence.
      * intros _. eauto.
      * intros _. by eexists.
      * intros [? ?]; discriminate.
      * intros [?|?]; done.
    + pose proof (simple_email_inr_again _ _ _ Hm Hst) as ->.
      split; [|split]; split.
      * intros _. eauto.
      * intros _. by eexists.
      * intros [? ?]; discriminate.
      * intros [_ (st & [= <-] & Hst')]. congruence.
      * intros [? ?]; discriminate.
      * intros [?|?]; done.
Qed.

Lemma validate_each_fails {A} (v : A → list string + A) (l : list A) (a : A)
    (fields : list string) :
  a ∈ l → v a = inl fields → ∃ fields', validate_each v l = inl fields'.
Proof.
  induction l as [|b l IH]; intros Hin Ha; [by apply elem_of_nil in Hin|].
  apply elem_of_cons in Hin as [<-|Hin]; simpl.
  - rewrite Ha. destruct (validate_each v l); by eexists.
  - destruct (IH Hin Ha) as [fs Hfs]. rewrite Hfs.
    destruct (v b); by eexists.
Qed.

Lemma run_keeps_user (tr : list (Request * Env)) :
  ∀ s k u,
    uuids_new tr s = true →
    _mem_users s !! k = Some u →
    ∃ p, _mem_users (run tr s) !! k = Some (set_points u p).
Proof.
  induction tr as [|x tr IH]; intros s k u Hnew Hk.
  - exists (u_points u). by rewrite set_points_id.
  - simpl in Hnew. apply andb_true_iff in Hnew as [Hx Htr].
    destruct (step_keeps_documents s x Hx) as (Hu & _).
    destruct (Hu k u Hk) as [p1 H1].
    destruct (IH (step s x) k _ Htr H1) as [p H2]. by exists p.
Qed.

(** A registration that is answered 500 breaks the users listing for
    good: the user it stored cannot be built into the response model, so
    after it, and after any further requests (ids being new each time),
    GET /users/ is answered 500. *)
Theorem rejected_registration_breaks_listing
    (n m : string) (e e' : Env) (s : Store) (fields : list string)
    (tr : list (Request * Env)) :
  reachable s →
  (app (PostUsers n m) e s).1 = inl (ResponseValidationError fields) →
  uuids_new tr (app (PostUsers n m) e s).2 = true →
  ∃ fields',
    app GetUsers e' (run tr (app (PostUsers n m) e s).2)
    = (inl (ResponseValidationError fields'), run tr (app (PostUsers n m) e s).2) ∧
    status_of (ResponseValidationError fields') = 500%Z.
Proof.
  intros Hr Hx Hnew.
  assert (Hok : order_ok (run tr (app (PostUsers n m) e s).2)).
  { apply run_order_ok. apply (step_order_ok s (PostUsers n m, e)).
    by apply reachable_order_ok. }
  rewrite post_users_eq in *.
  destruct (UserCreate_validate n m) as [x|user] eqn:Hv.
  { apply UserCreate_validate_inl in Hv as [[f ->] _]. discriminate Hx. }
  rewrite (UserOut_validate_created _ _ _ _ Hv) in Hx.
  destruct (simple_email (uc_email user)) as [msg|?] eqn:Hst; [|done].
  cbn [snd] in *.
  destruct (run_keeps_user tr _ (env_uuid e) (user_doc user e) Hnew) as [p Hp].
  { simpl. apply lookup_insert_eq. }
  rewrite get_users_eq.
  destruct Hok as (_ & Hu & _).
  assert (Hbad : ∃ fs, UserOut_validate
                         (user_out (env_uuid e) (set_points (user_doc user e) p))
                       = inl fs).
  { unfold UserOut_validate. simpl. rewrite Hst.
    destruct (String.length (uc_name user)); by eexists. }
  destruct Hbad as [fs Hfs].
  match type of Hp with
  | _mem_users ?S !! _ = _ =>
      assert (Hin : user_out (env_uuid e) (set_points (user_doc user e) p)
                    ∈ (λ kv, user_out kv.1 kv.2)
                        <$> dict_items (_mem_users S) (users_order S))
  end.
  { apply list_elem_of_fmap. exists (env_uuid e, set_points (user_doc user e) p).
    split; [reflexivity|].
    apply elem_of_dict_items. split; [|exact Hp]. apply Hu. eauto. }
  destruct (validate_each_fails UserOut_validate _ _ fs Hin Hfs) as [fields' Hf].
  rewrite Hf. eauto.
Qed.

Lemma rejected_registration_breaks_listing_witness :
  reachable ex_ready ∧
  (app (PostUsers "Dani" " @b.c") (ex_env "u-dani") ex_ready).1
    = inl (ResponseValidationError ["email"]) ∧
  ∃ fields',
    (app GetUsers (ex_env "x")
       (run [(PostUsers "Caio" "caio@example.org", ex_env "u-caio")]
          (app (PostUsers "Dani" " @b.c") (ex_env "u-dani") ex_ready).2)).1
    = inl (ResponseValidationError fields').
Proof.
  assert (Hr : reachable ex_ready) by (by exists ex_setup).
  split; [exact Hr|]. split; [reflexivity|].
  destruct (rejected_registration_breaks_listing "Dani" " @b.c" (ex_env "u-dani")
              (ex_env "x") ex_ready ["email"]
              [(PostUsers "Caio" "caio@example.org", ex_env "u-caio")]
              Hr eq_refl eq_refl) as (fields' & Hf & _).
  exists fields'. by rewrite Hf.
Defined.
